(** * Channel metadata of isoconda: [isoconda/models/channel.py]

    A shallow embedding of [ChannelGroupInfo] and [ChannelData] and the
    properties of their operations: [update_latest], [update_subdirs],
    [from_data], [dump], [merge] and [rescale].

    Python dictionaries are finite maps ([gmap]): dictionary equality in
    Python does not depend on insertion order.  Python sets are [gset]s, and
    turning a set into a list ([list(s)]) yields its elements in an order the
    language leaves open; every statement about such a list is made up to
    that order.  [copy.deepcopy] is the identity on immutable values. *)

From stdpp Require Import base option list sorting strings gmap fin_maps fin_sets.

Set Warnings "-register-all".

Open Scope string_scope.
Open Scope Z_scope.

(** ** Errors *)

(** The exceptions the code can raise.  [InvalidChannel] is the only one the
    module raises by itself; [KeyError] comes from indexing a dictionary,
    [TypeError] from ordering [None] against an integer, [ValueError] from
    [max] of nothing.  A value of another shape than the type annotation of
    the place it flows to is outside the domain of the functions; the
    embedding answers [TypeError] there as well. *)
Inductive error :=
| InvalidChannel
| KeyError (key : string)
| TypeError
| ValueError.

Inductive result (A : Type) :=
| Ok (a : A)
| Raise (e : error).
Arguments Ok {A} a.
Arguments Raise {A} e.

Global Instance result_ret : MRet result := λ A a, Ok a.

Global Instance result_bind : MBind result := λ A B k r,
  match r with
  | Ok a => k a
  | Raise e => Raise e
  end.

(** A loop with early exit by exception, left to right. *)
Fixpoint foldM {A S} (step : S → A → result S) (s : S) (l : list A) : result S :=
  match l with
  | [] => Ok s
  | a :: l' => s' ← step s a; foldM step s' l'
  end.

(** ** Values of type [Any] *)

(** What a JSON document holds (floating point numbers left aside). *)
Inductive value :=
| VNone
| VBool (b : bool)
| VInt (z : Z)
| VStr (s : string)
| VList (l : list value)
| VDict (m : gmap string value).

(** [v == n] for an integer [n]: [bool] is a subclass of [int] in Python. *)
Definition value_eq_int (v : value) (n : Z) : bool :=
  match v with
  | VInt z => z =? n
  | VBool b => (if b then 1 else 0) =? n
  | _ => false
  end.

(** A list of strings as a value, and back. *)
Definition of_strs (l : list string) : value := VList (VStr <$> l).

Definition as_str (v : value) : result string :=
  match v with
  | VStr s => Ok s
  | _ => Raise TypeError
  end.

Fixpoint as_strs_list (l : list value) : result (list string) :=
  match l with
  | [] => Ok []
  | v :: l' => s ← as_str v; r ← as_strs_list l'; Ok (s :: r)
  end.

Definition as_strs (v : value) : result (list string) :=
  match v with
  | VList l => as_strs_list l
  | _ => Raise TypeError
  end.

Definition as_dict (v : value) : result (gmap string value) :=
  match v with
  | VDict m => Ok m
  | _ => Raise TypeError
  end.

(** [sorted] on strings: Python orders [str] by code point, which on the
    bytes of the string is the lexicographic order [String.le]. *)
Definition sorted (l : list string) : list string := merge_sort String.le l.

(** [sorted(s)] for a set [s]. *)
Definition sorted_set (s : gset string) : list string := sorted (elements s).

(** [d[key]] *)
Definition dict_getitem {V} (d : gmap string V) (key : string) : result V :=
  match d !! key with
  | Some v => Ok v
  | None => Raise (KeyError key)
  end.

(** ** The collaborators *)

(** The builtin [hash] on [str]: fixed within one run of the interpreter. *)
Class PyHash := py_hash : string → Z.

(** Modelled from the spec: [isoconda.models.utils.create_order], a pure,
    total function from a version string to a comparable key.  The key comes
    with [==], [<] and [str]; [a > b] is [b < a]. *)
Class VersionOrder (K : Type) := {
  create_order : string → K;
  order_eqb : K → K → bool;
  order_ltb : K → K → bool;
  order_str : K → string
}.

(** Modelled from the spec: [isoconda.models.repo.PackageRecord], which
    exposes a version (string), a timestamp (optional integer) and a subdir
    (string). *)
Module PackageRecord.
Record t := mk {
  version : string;
  timestamp : option Z;
  subdir : string
}.
End PackageRecord.

(** Modelled from the spec: [isoconda.models.repo.RepoData], one subdir's
    listing.  It exposes its subdir identifier, answers [name in repo] and
    gives the sequence of records [repo[name]]. *)
Module RepoData.
Record t := mk {
  subdir : string;
  groups : gmap string (list PackageRecord.t)
}.

Definition contains (repo : t) (name : string) : bool :=
  bool_decide (is_Some (groups repo !! name)).

Definition getitem (repo : t) (name : string) : result (list PackageRecord.t) :=
  dict_getitem (groups repo) name.
End RepoData.

(** ** [ChannelGroupInfo] *)

Module ChannelGroupInfo.
Section defs.
Context `{!PyHash}.

Record t := mk {
  _name : string;
  _data : gmap string value;
  _pkey : string;
  _hash : Z
}.

(** [__init__] *)
Definition init (name : string) (data : gmap string value) : t :=
  {| _name := name; _data := data; _pkey := name; _hash := py_hash name |}.

Definition name (self : t) : string := _name self.

(** [self._data.get('timestamp', None)] *)
Definition timestamp (self : t) : option value := _data self !! "timestamp".

(** [self._data['version']] *)
Definition version (self : t) : result value :=
  dict_getitem (_data self) "version".

Definition dump (self : t) : gmap string value := _data self.

Definition update_latest (self : t) (version : string) (timestamp : option Z) : t :=
  let data := _data self in
  let data :=
    match timestamp with
    | None => delete "timestamp" data
    | Some ts =>
        if ts =? 0 then delete "timestamp" data
        else <["timestamp" := VInt ts]> data
    end in
  let data := <["version" := VStr version]> data in
  init (name self) data.

Definition update_subdirs (self : t) (subdirs : list string) : t :=
  let data := _data self in
  let data := <["subdirs" := of_strs subdirs]> data in
  init (name self) data.

(** [__eq__] and [__hash__] *)
Definition eq (self other : t) : bool := String.eqb (_pkey self) (_pkey other).

Definition hash (self : t) : Z := _hash self.
End defs.
End ChannelGroupInfo.

(** ** Ordering the pairs [(order, timestamp)] *)

Section ordering.
Context `{!VersionOrder K}.

(** [a == b] on [Optional[int]] *)
Definition timestamp_eqb (a b : option Z) : bool :=
  match a, b with
  | None, None => true
  | Some x, Some y => x =? y
  | _, _ => false
  end.

(** [a > b] on [Optional[int]]: [None] is not ordered against an integer. *)
Definition timestamp_gt (a b : option Z) : result bool :=
  match a, b with
  | Some x, Some y => Ok (y <? x)
  | _, _ => Raise TypeError
  end.

(** [a > b] on tuples of length two: the first position where the two
    differ (by [==]) decides (by [>]); equal tuples are not greater. *)
Definition pair_gt (a b : K * option Z) : result bool :=
  if negb (order_eqb a.1 b.1) then Ok (order_ltb b.1 a.1)
  else if negb (timestamp_eqb a.2 b.2) then timestamp_gt a.2 b.2
  else Ok false.

(** The builtin [max]: the first item, replaced by each later item that
    is greater than the maximum so far. *)
Definition py_max (items : list (K * option Z)) : result (K * option Z) :=
  match items with
  | [] => Raise ValueError
  | first :: rest =>
      foldM (λ maxitem item,
               gt ← pair_gt item maxitem;
               Ok (if gt : bool then item else maxitem))
            first rest
  end.
End ordering.

(** ** [ChannelData] *)

Module ChannelData.
Section defs.
Context `{!PyHash} `{!VersionOrder K}.

Record t := mk {
  _subdirs : list string;
  _groups : gmap string ChannelGroupInfo.t
}.

Definition VERSION : Z := 1.

(** [__init__]: [list(subdirs)] and [dict(groups)] *)
Definition init (subdirs : list string) (groups : gmap string ChannelGroupInfo.t) : t :=
  {| _subdirs := subdirs; _groups := groups |}.

Definition subdirs (self : t) : list string := _subdirs self.

Definition contains (self : t) (key : string) : bool :=
  bool_decide (key ∈ dom (_groups self)).

Definition getitem (self : t) (key : string) : result ChannelGroupInfo.t :=
  dict_getitem (_groups self) key.

Definition keys (self : t) : gset string := dom (_groups self).

Definition len (self : t) : nat := size (_groups self).

(** [__iter__]: the keys, in the order of the dictionary. *)
Definition iter (self : t) : list string := (map_to_list (_groups self)).*1.

(** The body of the loop of [from_data]. *)
Definition from_data_step (groups : gmap string ChannelGroupInfo.t)
    (item : string * value) : result (gmap string ChannelGroupInfo.t) :=
  let '(name, data) := item in
  data ← as_dict data;
  let info := ChannelGroupInfo.init name data in
  Ok (<[ChannelGroupInfo.name info := info]> groups).

(** [from_data]: the tag is read and checked first.  [subdirs] flows to
    [__init__], which wants strings, and each entry of [packages] to
    [ChannelGroupInfo.__init__], which wants a dictionary. *)
Definition from_data (channeldata : gmap string value) : result t :=
  repodata_version ← dict_getitem channeldata "channeldata_version";
  if negb (value_eq_int repodata_version VERSION) then Raise InvalidChannel
  else
    subdirs ← dict_getitem channeldata "subdirs";
    packages ← dict_getitem channeldata "packages";
    packages ← as_dict packages;
    groups ← foldM from_data_step ∅ (map_to_list packages);
    subdirs ← as_strs subdirs;
    Ok (init subdirs groups).

Definition dump (self : t) : gmap string value :=
  let data : gmap string value := ∅ in
  let data := <["channeldata_version" := VInt VERSION]> data in
  let packages : gmap string value :=
    (λ group, VDict (ChannelGroupInfo.dump group)) <$> _groups self in
  let data := <["packages" := VDict packages]> data in
  let data := <["subdirs" := of_strs (sorted (subdirs self))]> data in
  data.

(** The body of the loop of [merge]. *)
Definition merge_step (self other : t) (groups : gmap string ChannelGroupInfo.t)
    (key : string) : result (gmap string ChannelGroupInfo.t) :=
  if bool_decide (key ∈ dom (_groups self)) then
    info ← dict_getitem (_groups self) key;
    Ok (<[key := info]> groups)
  else
    info ← getitem other key;
    Ok (<[key := info]> groups).

Definition merge (self other : t) : result t :=
  let subdirs :=
    sorted_set (list_to_set (subdirs self) ∪ list_to_set (subdirs other)) in
  let keys := dom (_groups self) ∪ keys other in
  groups ← foldM (merge_step self other) ∅ (sorted_set keys);
  Ok (init subdirs groups).

(** The inner loop of [rescale], for one group name: the records of the
    repos that contain the name, and the subdirs of these repos. *)
Definition scan_step (name : string)
    (st : list PackageRecord.t * gset string) (repo : RepoData.t)
    : list PackageRecord.t * gset string :=
  let '(packages, channel_subdirs) := st in
  match RepoData.groups repo !! name with
  | Some records =>
      ((packages ++ records)%list, channel_subdirs ∪ {[RepoData.subdir repo]})
  | None => (packages, channel_subdirs)
  end.

(** The body of the outer loop of [rescale]. *)
Definition rescale_step (repos : list RepoData.t)
    (st : gset string * gmap string ChannelGroupInfo.t)
    (item : string * ChannelGroupInfo.t)
    : result (gset string * gmap string ChannelGroupInfo.t) :=
  let '(channel_subdirs, groups) := st in
  let '(name, info) := item in
  let '(packages, channel_subdirs) :=
    foldl (scan_step name) ([], channel_subdirs) repos in
  match packages with
  | [] => Ok (channel_subdirs, groups)
  | _ :: _ =>
      let subdirs :=
        sorted_set (list_to_set (PackageRecord.subdir <$> packages)) in
      '(order, timestamp) ←
        py_max ((λ package, (create_order (PackageRecord.version package),
                             PackageRecord.timestamp package)) <$> packages);
      let modified_info :=
        ChannelGroupInfo.update_latest
          (ChannelGroupInfo.update_subdirs info subdirs)
          (order_str order) timestamp in
      Ok (channel_subdirs, <[name := modified_info]> groups)
  end.

Definition rescale (self : t) (repos : list RepoData.t) : result t :=
  '(channel_subdirs, groups) ←
    foldM (rescale_step repos) (∅, ∅) (map_to_list (_groups self));
  Ok (init (elements channel_subdirs) groups).
End defs.
End ChannelData.

(** ** A concrete setting

    Keys that are the version strings themselves, ordered as strings, and
    the length of a string as its hash; the snapshot and the two repos of
    the end-to-end example. *)

Module Demo.
#[export] Instance hash : PyHash := λ s, Z.of_nat (String.length s).

#[export] Instance order : VersionOrder string := {|
  create_order := id;
  order_eqb := String.eqb;
  order_ltb := String.ltb;
  order_str := id
|}.

Definition numpy : ChannelGroupInfo.t :=
  ChannelGroupInfo.init "numpy" {["version" := VStr "1.0"]}.

Definition snapshot : ChannelData.t :=
  ChannelData.init [] {["numpy" := numpy]}.

Definition linux : RepoData.t :=
  RepoData.mk "linux-64"
    {["numpy" := [PackageRecord.mk "1.2.0" (Some 100) "linux-64"]]}.

Definition osx : RepoData.t :=
  RepoData.mk "osx-64"
    {["numpy" := [PackageRecord.mk "1.1.0" (Some 200) "osx-64"]]}.

Definition rescaled_numpy : ChannelGroupInfo.t :=
  ChannelGroupInfo.init "numpy"
    (<["version" := VStr "1.2.0"]>
       (<["timestamp" := VInt 100]>
          (<["subdirs" := of_strs ["linux-64"; "osx-64"]]>
             {["version" := VStr "1.0"]}))).

(** The list of a set comes in the order of the set. *)
Definition rescaled : ChannelData.t :=
  ChannelData.init (elements ({["linux-64"; "osx-64"]} : gset string))
    {["numpy" := rescaled_numpy]}.

(** A repo that knows the name and has no record for it. *)
Definition bare : RepoData.t := RepoData.mk "win-64" {["numpy" := []]}.

Definition rescaled_bare : ChannelData.t := ChannelData.init ["win-64"] ∅.

(** Two records of one version, the first without timestamp. *)
Definition tied : RepoData.t :=
  RepoData.mk "linux-64"
    {["numpy" := [PackageRecord.mk "1.2.0" None "linux-64";
                  PackageRecord.mk "1.2.0" (Some 100) "linux-64"]]}.

(** A snapshot with another [numpy] and with [zlib]. *)
Definition other : ChannelData.t :=
  ChannelData.init ["win-64"; "linux-64"]
    (<["numpy" := ChannelGroupInfo.init "numpy" {["version" := VStr "0.9"]}]>
       {["zlib" := ChannelGroupInfo.init "zlib" {["version" := VStr "1.3"]}]}).

(** A document of the schema; the field bag of [zlib] has no [version]. *)
Definition bags : gmap string (gmap string value) :=
  <["numpy" := <["license" := VStr "BSD"]> {["version" := VStr "1.0"]}]>
    {["zlib" := {["timestamp" := VInt 5]}]}.

Definition document : gmap string value :=
  <["channeldata_version" := VInt 1]>
    (<["subdirs" := of_strs ["osx-64"; "linux-64"]]>
       {["packages" := VDict (VDict <$> bags)]}).

Definition parsed : ChannelData.t :=
  ChannelData.init ["osx-64"; "linux-64"]
    (<["numpy" := ChannelGroupInfo.init "numpy"
                    (<["license" := VStr "BSD"]> {["version" := VStr "1.0"]})]>
       {["zlib" := ChannelGroupInfo.init "zlib" {["timestamp" := VInt 5]}]}).

(** The same document with one more key. *)
Definition annotated : gmap string value := <["comment" := VNone]> document.
End Demo.

(** ** Vocabulary of the statements *)

(** The [timestamp] field that [update_latest] leaves behind. *)
Definition latest_timestamp (ts : option Z) : option value :=
  match ts with
  | None => None
  | Some z => if z =? 0 then None else Some (VInt z)
  end.

(** The invariant of a snapshot: every key of the group mapping is the name
    of the group it maps to. *)
Definition keys_match (cd : ChannelData.t) : Prop :=
  ∀ key info,
    ChannelData._groups cd !! key = Some info → ChannelGroupInfo.name info = key.

(** A snapshot whose groups are as [__init__] builds them under their key:
    the name, [_pkey] and [_hash] of a group all come from the key. *)
Definition groups_constructed `{!PyHash} (cd : ChannelData.t) : Prop :=
  ∀ key info,
    ChannelData._groups cd !! key = Some info →
    info = ChannelGroupInfo.init key (ChannelGroupInfo._data info).

(** The records found for a group name, repo after repo. *)
Definition records (name : string) (repos : list RepoData.t) : list PackageRecord.t :=
  repos ≫= λ repo, default [] (RepoData.groups repo !! name).

(** The subdir identifiers of the repos that contain a group name. *)
Definition containing (name : string) (repos : list RepoData.t) : gset string :=
  list_to_set
    (RepoData.subdir
       <$> filter (λ repo, is_Some (RepoData.groups repo !! name)) repos).

(** Modelled from the spec: a repo is one subdir's listing of the records
    that the subdir owns, and a group is the set of the distributions of
    one name.  So a name that a repo contains has at least one record, and
    every record of a repo has the subdir of that repo. *)
Definition repo_wf (repo : RepoData.t) : Prop :=
  ∀ name recs,
    RepoData.groups repo !! name = Some recs →
    recs ≠ [] ∧ ∀ rec, rec ∈ recs → PackageRecord.subdir rec = RepoData.subdir repo.

(** Modelled from the spec: the keys of [create_order] are totally ordered.
    [==] holds of two keys when neither is below the other, [<] is
    asymmetric, and a key below another is below any third key or has it
    below that other (so that [<] is transitive and agrees with [==]). *)
Class VersionOrderLaws (K : Type) `{!VersionOrder K} : Prop := {
  order_eqb_ltb (a b : K) :
    order_eqb a b = negb (order_ltb a b) && negb (order_ltb b a);
  order_ltb_asym (a b : K) :
    order_ltb a b = true → order_ltb b a = false;
  order_ltb_cotrans (a b c : K) :
    order_ltb a c = true → order_ltb a b = true ∨ order_ltb b c = true
}.

(** [a > b] on the pairs, where it is defined: the lexicographic order of
    the order key and the timestamp. *)
Definition pair_gtb `{!VersionOrder K} (a b : K * option Z) : bool :=
  if negb (order_eqb a.1 b.1) then order_ltb b.1 a.1
  else
    match a.2, b.2 with
    | Some x, Some y => y <? x
    | _, _ => false
    end.

(** A timestamp that is not above another one: both absent, or both
    present and the first at most the second. *)
Definition timestamp_le (a b : option Z) : Prop :=
  (a = None ∧ b = None) ∨ ∃ x y, a = Some x ∧ b = Some y ∧ x ≤ y.

(** A pair that [m] is not below: its order key is below that of [m], or
    the two keys are equal and its timestamp is not above that of [m]. *)
Definition pair_le `{!VersionOrder K} (x m : K * option Z) : Prop :=
  order_ltb x.1 m.1 = true
  ∨ (order_eqb x.1 m.1 = true ∧ timestamp_le x.2 m.2).

(** No record under one order key with a timestamp and another one
    without. *)
Definition ties_comparable `{!VersionOrder K} (items : list (K * option Z)) : Prop :=
  ∀ a b, a ∈ items → b ∈ items →
    order_eqb a.1 b.1 = true → (is_Some a.2 ↔ is_Some b.2).

Section vocabulary.
Context `{!PyHash} `{!VersionOrder K}.

(** The pairs [max] ranges over. *)
Definition candidates (packages : list PackageRecord.t) : list (K * option Z) :=
  (λ package, (create_order (PackageRecord.version package),
               PackageRecord.timestamp package)) <$> packages.

(** What [rescale] makes of one group: nothing when no record is found,
    the updated group otherwise. *)
Definition rescaled_group (name : string) (info : ChannelGroupInfo.t)
    (repos : list RepoData.t) : result (option ChannelGroupInfo.t) :=
  match records name repos with
  | [] => Ok None
  | (_ :: _) as packages =>
      '(order, timestamp) ← py_max (candidates packages);
      Ok (Some (ChannelGroupInfo.update_latest
                  (ChannelGroupInfo.update_subdirs info
                     (sorted_set (list_to_set (PackageRecord.subdir <$> packages))))
                  (order_str order) timestamp))
  end.
End vocabulary.

(** * Properties *)

(** ** [ChannelGroupInfo] *)

Section group_info.
Context `{!PyHash}.

Lemma init_name name data :
  ChannelGroupInfo.name (ChannelGroupInfo.init name data) = name.
Proof. reflexivity. Qed.

Lemma dump_init name data :
  ChannelGroupInfo.dump (ChannelGroupInfo.init name data) = data.
Proof. reflexivity. Qed.

Lemma update_subdirs_name g subdirs :
  ChannelGroupInfo.name (ChannelGroupInfo.update_subdirs g subdirs)
  = ChannelGroupInfo.name g.
Proof. reflexivity. Qed.

Lemma update_latest_name g v ts :
  ChannelGroupInfo.name (ChannelGroupInfo.update_latest g v ts)
  = ChannelGroupInfo.name g.
Proof. reflexivity. Qed.

Lemma latest_timestamp_decide (ts : option Z) :
  latest_timestamp ts
  = match ts with
    | None => None
    | Some z => if decide (z = 0) then None else Some (VInt z)
    end.
Proof.
  destruct ts as [z|]; simpl; [|done].
  destruct (Z.eqb_spec z 0); by case_decide.
Qed.

Lemma update_latest_version g v ts :
  ChannelGroupInfo._data (ChannelGroupInfo.update_latest g v ts) !! "version"
  = Some (VStr v).
Proof. unfold ChannelGroupInfo.update_latest; simpl. apply lookup_insert_eq. Qed.

Lemma update_latest_timestamp g v ts :
  ChannelGroupInfo.timestamp (ChannelGroupInfo.update_latest g v ts)
  = latest_timestamp ts.
Proof.
  unfold ChannelGroupInfo.timestamp, ChannelGroupInfo.update_latest; simpl.
  rewrite lookup_insert_ne by done.
  destruct ts as [z|]; simpl; [destruct (z =? 0)|].
  - apply lookup_delete_eq.
  - apply lookup_insert_eq.
  - apply lookup_delete_eq.
Qed.

Lemma update_latest_other g v ts key :
  key ≠ "version" → key ≠ "timestamp" →
  ChannelGroupInfo._data (ChannelGroupInfo.update_latest g v ts) !! key
  = ChannelGroupInfo._data g !! key.
Proof.
  intros Hv Ht. unfold ChannelGroupInfo.update_latest; simpl.
  rewrite lookup_insert_ne by done.
  destruct ts as [z|]; [destruct (z =? 0)|].
  - by rewrite lookup_delete_ne.
  - by rewrite lookup_insert_ne.
  - by rewrite lookup_delete_ne.
Qed.

(** C7: [update_latest(v, t)] gives a group of the same name whose field
    bag has no [timestamp] key when [t] is [None] or [0] (whatever the
    bag held before) and [timestamp = t] otherwise, has [version = v] in
    every case, and agrees with the old bag on every other key. *)
Theorem update_latest_spec (g : ChannelGroupInfo.t) (v : string) (t : option Z) :
  let g' := ChannelGroupInfo.update_latest g v t in
  ChannelGroupInfo.name g' = ChannelGroupInfo.name g
  ∧ ChannelGroupInfo._data g' !! "version" = Some (VStr v)
  ∧ ChannelGroupInfo._data g' !! "timestamp"
    = match t with
      | None => None
      | Some z => if decide (z = 0) then None else Some (VInt z)
      end
  ∧ ∀ key, key ≠ "version" → key ≠ "timestamp" →
      ChannelGroupInfo._data g' !! key = ChannelGroupInfo._data g !! key.
Proof.
  intros g'. split; [reflexivity|]. split; [apply update_latest_version|].
  split; [|intros; by apply update_latest_other].
  subst g'. rewrite <- latest_timestamp_decide. apply update_latest_timestamp.
Qed.

(** C9: two groups constructed under the same name are equal for [==] and
    have the same hash, whatever their field bags. *)
Theorem eq_hash_by_name (name : string) (data1 data2 : gmap string value) :
  let a := ChannelGroupInfo.init name data1 in
  let b := ChannelGroupInfo.init name data2 in
  ChannelGroupInfo.eq a b = true ∧ ChannelGroupInfo.hash a = ChannelGroupInfo.hash b.
Proof. simpl. split; [apply String.eqb_refl|reflexivity]. Qed.

(** [==] on constructed groups is equality of the names. *)
Lemma eq_init_iff name1 name2 data1 data2 :
  ChannelGroupInfo.eq (ChannelGroupInfo.init name1 data1)
                      (ChannelGroupInfo.init name2 data2) = true
  ↔ name1 = name2.
Proof. unfold ChannelGroupInfo.eq; simpl. apply String.eqb_eq. Qed.
End group_info.

(** ** Sorting *)

Lemma sorted_Permutation (l : list string) : sorted l ≡ₚ l.
Proof. apply merge_sort_Permutation. Qed.

Lemma sorted_StronglySorted (l : list string) : StronglySorted String.le (sorted l).
Proof. apply StronglySorted_merge_sort; apply _. Qed.

Lemma elem_of_sorted (l : list string) (s : string) : s ∈ sorted l ↔ s ∈ l.
Proof. by rewrite sorted_Permutation. Qed.

Lemma elem_of_sorted_set (X : gset string) (s : string) : s ∈ sorted_set X ↔ s ∈ X.
Proof. unfold sorted_set. by rewrite elem_of_sorted, elem_of_elements. Qed.

Lemma NoDup_sorted_set (X : gset string) : NoDup (sorted_set X).
Proof.
  unfold sorted_set. rewrite sorted_Permutation. apply NoDup_elements.
Qed.

(** A sorted list is determined by its elements: [sorted] does not depend on
    the order in which a set hands out its elements. *)
Lemma sorted_unique (l1 l2 : list string) : l1 ≡ₚ l2 → sorted l1 = sorted l2.
Proof.
  intros Hp. apply (Sorted_unique String.le).
  - apply StronglySorted_Sorted, sorted_StronglySorted.
  - apply StronglySorted_Sorted, sorted_StronglySorted.
  - by rewrite !sorted_Permutation.
Qed.

Lemma sorted_set_list_to_set (l : list string) :
  NoDup l → sorted_set (list_to_set l) = sorted l.
Proof.
  intros Hl. apply sorted_unique. by apply elements_list_to_set.
Qed.

(** ** [merge] *)

Section merge.
Context (self other : ChannelData.t).

Lemma merge_step_ok groups key :
  key ∈ dom (ChannelData._groups self) ∪ dom (ChannelData._groups other) →
  ∃ info,
    (ChannelData._groups self ∪ ChannelData._groups other) !! key = Some info
    ∧ ChannelData.merge_step self other groups key = Ok (<[key := info]> groups).
Proof.
  intros Hkey. unfold ChannelData.merge_step.
  case_bool_decide as Hself.
  - apply elem_of_dom in Hself as [info Hinfo].
    exists info. split; [by apply lookup_union_Some_l|].
    unfold dict_getitem. by rewrite Hinfo.
  - assert (key ∈ dom (ChannelData._groups other)) as Hother
      by (apply elem_of_union in Hkey as [?|?]; done).
    apply not_elem_of_dom in Hself.
    apply elem_of_dom in Hother as [info Hinfo].
    exists info. split; [by rewrite lookup_union_r|].
    unfold ChannelData.getitem, dict_getitem. by rewrite Hinfo.
Qed.

Lemma merge_loop keys groups :
  (∀ key, key ∈ keys →
     key ∈ dom (ChannelData._groups self) ∪ dom (ChannelData._groups other)) →
  ∃ groups',
    foldM (ChannelData.merge_step self other) groups keys = Ok groups'
    ∧ ∀ key,
        groups' !! key
        = if decide (key ∈ keys)
          then (ChannelData._groups self ∪ ChannelData._groups other) !! key
          else groups !! key.
Proof.
  revert groups. induction keys as [|k keys IH]; intros groups Hkeys.
  - exists groups. split; [done|]. intros key.
    destruct (decide (key ∈ [])) as [Hin|]; [|done].
    by apply elem_of_nil in Hin.
  - assert (k ∈ dom (ChannelData._groups self) ∪ dom (ChannelData._groups other))
      as Hk by (apply Hkeys; left).
    destruct (merge_step_ok groups k Hk) as (info & Hinfo & Hstep).
    simpl. rewrite Hstep. simpl.
    assert (∀ key, key ∈ keys →
              key ∈ dom (ChannelData._groups self) ∪ dom (ChannelData._groups other))
      as Hkeys' by (intros; apply Hkeys; by right).
    destruct (IH (<[k := info]> groups) Hkeys') as (groups' & -> & Hlookup).
    exists groups'. split; [done|]. intros key. rewrite Hlookup.
    destruct (decide (key ∈ keys)) as [Hin|Hin].
    + rewrite decide_True by (by right). done.
    + destruct (decide (key = k)) as [->|Hne].
      * rewrite decide_True by left. by rewrite lookup_insert_eq.
      * rewrite lookup_insert_ne by done.
        rewrite decide_False; [done|]. by intros [?|?]%elem_of_cons.
Qed.

(** [merge] never raises, and has a closed form: the sorted union of the
    subdirs and the left-biased union of the group mappings. *)
Lemma merge_closed_form :
  ChannelData.merge self other
  = Ok (ChannelData.init
          (sorted_set (list_to_set (ChannelData.subdirs self)
                       ∪ list_to_set (ChannelData.subdirs other)))
          (ChannelData._groups self ∪ ChannelData._groups other)).
Proof.
  unfold ChannelData.merge, ChannelData.keys.
  destruct (merge_loop
              (sorted_set (dom (ChannelData._groups self)
                           ∪ dom (ChannelData._groups other))) ∅)
    as (groups & -> & Hlookup).
  { intros key. by rewrite elem_of_sorted_set. }
  simpl. do 2 f_equal. apply map_eq. intros key. rewrite Hlookup.
  case_decide as Hin; [done|].
  rewrite elem_of_sorted_set, <- dom_union_L in Hin.
  apply not_elem_of_dom in Hin. by rewrite Hin, lookup_empty.
Qed.
End merge.

(** C3: [merge(A, B)] yields a snapshot whose subdir list is sorted, free of
    duplicates and holds exactly the subdirs of [A] and of [B]; whose group
    names are those of [A] and of [B]; and in which every name of [A] maps
    to the group [A] has for it, untouched, every other name to the group
    of [B]. *)
Theorem merge_spec (A B : ChannelData.t) :
  ∃ R,
    ChannelData.merge A B = Ok R
    ∧ StronglySorted String.le (ChannelData.subdirs R)
    ∧ NoDup (ChannelData.subdirs R)
    ∧ (∀ s, s ∈ ChannelData.subdirs R
            ↔ s ∈ ChannelData.subdirs A ∨ s ∈ ChannelData.subdirs B)
    ∧ ChannelData.keys R = ChannelData.keys A ∪ ChannelData.keys B
    ∧ (∀ name info,
         ChannelData._groups A !! name = Some info →
         ChannelData._groups R !! name = Some info)
    ∧ (∀ name,
         ChannelData._groups A !! name = None →
         ChannelData._groups R !! name = ChannelData._groups B !! name).
Proof.
  eexists. split; [apply merge_closed_form|]. simpl.
  split; [apply sorted_StronglySorted|].
  split; [apply NoDup_sorted_set|].
  split; [intros s; rewrite elem_of_sorted_set; set_solver|].
  split; [unfold ChannelData.keys; simpl; apply dom_union_L|].
  split.
  - intros name info Hinfo. by apply lookup_union_Some_l.
  - intros name Hnone. by apply lookup_union_r.
Qed.

(** ** [from_data] and [dump] *)

Lemma as_strs_list_Ok (l : list value) (strs : list string) :
  as_strs_list l = Ok strs → l = VStr <$> strs.
Proof.
  revert strs. induction l as [|v l IH]; intros strs; simpl.
  - by intros [= <-].
  - destruct v; simpl; try done.
    destruct (as_strs_list l) as [r|e]; simpl; [|done].
    intros [= <-]. simpl. f_equal. by apply IH.
Qed.

Lemma as_strs_Ok (v : value) (strs : list string) :
  as_strs v = Ok strs → v = of_strs strs.
Proof.
  destruct v; simpl; try done. intros Hl. unfold of_strs. f_equal.
  by apply as_strs_list_Ok.
Qed.

Lemma as_strs_Raise (v : value) (e : error) : as_strs v = Raise e → e = TypeError.
Proof.
  destruct v as [| | | |l|]; simpl; try (by intros [= <-]).
  induction l as [|v l IH]; simpl; [done|].
  destruct v; simpl; try (by intros [= <-]).
  destruct (as_strs_list l); simpl; [done|]. intros [= <-]. by apply IH.
Qed.

Lemma as_strs_of_strs (strs : list string) : as_strs (of_strs strs) = Ok strs.
Proof.
  unfold of_strs, as_strs. induction strs as [|s strs IH]; [done|].
  rewrite fmap_cons. simpl. by rewrite IH.
Qed.

Section from_data.
Context `{!PyHash}.

(** What the loop of [from_data] leaves in [groups]. *)
Lemma from_data_loop items groups groups' :
  NoDup items.*1 →
  foldM ChannelData.from_data_step groups items = Ok groups' →
  (∀ name v, (name, v) ∈ items →
     ∃ bag, v = VDict bag ∧ groups' !! name = Some (ChannelGroupInfo.init name bag))
  ∧ (∀ name, name ∉ items.*1 → groups' !! name = groups !! name).
Proof.
  revert groups. induction items as [|[n v] items IH]; intros groups Hnd; simpl.
  - intros [= <-]. split; [|done]. intros name v Hin. by apply elem_of_nil in Hin.
  - apply NoDup_cons in Hnd as [Hn Hnd].
    destruct v as [| | | | |bag]; simpl; try done.
    intros Hloop. destruct (IH _ Hnd Hloop) as [Hin Hout]. split.
    + intros name v [[= -> ->]|Hitem]%elem_of_cons; [|by apply Hin].
      exists bag. split; [done|].
      rewrite Hout by done. apply lookup_insert_eq.
    + intros name [Hne Hname]%not_elem_of_cons.
      rewrite Hout by done. by rewrite lookup_insert_ne.
Qed.

Lemma from_data_loop_total items groups :
  (∀ name v, (name, v) ∈ items → ∃ bag, v = VDict bag) →
  ∃ groups', foldM ChannelData.from_data_step groups items = Ok groups'.
Proof.
  revert groups. induction items as [|[n v] items IH]; intros groups Hbags; simpl.
  - by eexists.
  - destruct (Hbags n v) as [bag ->]; [left|]. simpl.
    apply IH. intros name v' Hin. apply (Hbags name v'). by right.
Qed.

Lemma from_data_loop_Raise items groups e :
  foldM ChannelData.from_data_step groups items = Raise e → e = TypeError.
Proof.
  revert groups. induction items as [|[n v] items IH]; intros groups; simpl.
  - done.
  - destruct v; simpl; try (by intros [= <-]). apply IH.
Qed.

(** The snapshots [from_data] returns, and the documents it accepts. *)
Lemma from_data_Ok channeldata cd :
  ChannelData.from_data channeldata = Ok cd →
  ∃ tag subdirs packages,
    channeldata !! "channeldata_version" = Some tag
    ∧ value_eq_int tag ChannelData.VERSION = true
    ∧ channeldata !! "subdirs" = Some (of_strs subdirs)
    ∧ channeldata !! "packages" = Some (VDict packages)
    ∧ ChannelData._subdirs cd = subdirs
    ∧ (∀ name v, packages !! name = Some v →
         ∃ bag, v = VDict bag
           ∧ ChannelData._groups cd !! name = Some (ChannelGroupInfo.init name bag))
    ∧ (∀ name, packages !! name = None → ChannelData._groups cd !! name = None).
Proof.
  unfold ChannelData.from_data, dict_getitem.
  destruct (channeldata !! "channeldata_version") as [tag|]; simpl; [|done].
  destruct (value_eq_int tag ChannelData.VERSION) eqn:Htag; simpl; [|done].
  destruct (channeldata !! "subdirs") as [sv|]; simpl; [|done].
  destruct (channeldata !! "packages") as [pv|]; simpl; [|done].
  destruct pv as [| | | | |packages]; simpl; try done.
  destruct (foldM _ _ _) as [groups|] eqn:Hloop; simpl; [|done].
  destruct (as_strs sv) as [subdirs|] eqn:Hsv; simpl; [|done].
  intros [= <-]. apply as_strs_Ok in Hsv as ->.
  apply from_data_loop in Hloop as [Hin Hout]; [|apply NoDup_fst_map_to_list].
  exists tag, subdirs, packages. repeat split; try done.
  - intros name v Hv. apply Hin. by apply elem_of_map_to_list.
  - intros name Hnone. simpl. rewrite Hout; [done|].
    intros [[n v] [-> Hitem]]%list_elem_of_fmap.
    apply elem_of_map_to_list in Hitem. simpl in *. congruence.
Qed.

(** A document with a supported tag, a list of strings for [subdirs] and
    a dictionary of dictionaries for [packages] is accepted, whatever the
    field bags hold. *)
Lemma from_data_total channeldata tag subdirs (packages : gmap string (gmap string value)) :
  channeldata !! "channeldata_version" = Some tag →
  value_eq_int tag ChannelData.VERSION = true →
  channeldata !! "subdirs" = Some (of_strs subdirs) →
  channeldata !! "packages" = Some (VDict (VDict <$> packages)) →
  ∃ cd, ChannelData.from_data channeldata = Ok cd.
Proof.
  intros Htag Heq Hsub Hpk. unfold ChannelData.from_data, dict_getitem.
  rewrite Htag; simpl. rewrite Heq; simpl. rewrite Hsub, Hpk; simpl.
  destruct (from_data_loop_total (map_to_list (VDict <$> packages)) ∅)
    as [groups ->].
  { intros name v [bag [<- _]]%elem_of_map_to_list%lookup_fmap_Some. by eexists. }
  change (as_strs_list (VStr <$> subdirs)) with (as_strs (of_strs subdirs)).
  rewrite as_strs_of_strs. by eexists.
Qed.

(** [InvalidChannel] comes from the tag alone. *)
Lemma from_data_InvalidChannel channeldata tag :
  channeldata !! "channeldata_version" = Some tag →
  ChannelData.from_data channeldata = Raise InvalidChannel
  ↔ value_eq_int tag ChannelData.VERSION = false.
Proof.
  intros Htag. unfold ChannelData.from_data, dict_getitem. rewrite Htag; simpl.
  destruct (value_eq_int tag ChannelData.VERSION); simpl; [|done].
  split; [|done]. intros Hraise. exfalso.
  destruct (channeldata !! "subdirs") as [sv|]; simpl in Hraise; [|done].
  destruct (channeldata !! "packages") as [pv|]; simpl in Hraise; [|done].
  destruct pv as [| | | | |packages]; simpl in Hraise; try done.
  destruct (foldM _ _ _) as [groups|e] eqn:Hloop; simpl in Hraise.
  - destruct (as_strs sv) as [|e] eqn:Hsv; simpl in Hraise; [done|].
    apply as_strs_Raise in Hsv. congruence.
  - apply from_data_loop_Raise in Hloop. congruence.
Qed.
End from_data.

Section round_trip.
Context `{!PyHash}.

Lemma dump_lookup_other (cd : ChannelData.t) (key : string) :
  key ≠ "channeldata_version" → key ≠ "packages" → key ≠ "subdirs" →
  ChannelData.dump cd !! key = None.
Proof.
  intros ???. unfold ChannelData.dump.
  by rewrite !lookup_insert_ne, lookup_empty.
Qed.

(** C4, amended: for a document whose keys are the three keys of the
    schema and whose tag is [1], [dump(from_data(d))] is [d] with its
    [subdirs] list sorted; every field bag of [packages] comes back as it
    was, whatever fields it holds. *)
Theorem dump_from_data (d : gmap string value) (cd : ChannelData.t) :
  ChannelData.from_data d = Ok cd →
  d !! "channeldata_version" = Some (VInt ChannelData.VERSION) →
  dom d = {["channeldata_version"; "packages"; "subdirs"]} →
  ∃ subdirs packages,
    d !! "subdirs" = Some (of_strs subdirs)
    ∧ d !! "packages" = Some (VDict packages)
    ∧ ChannelData.dump cd = <["subdirs" := of_strs (sorted subdirs)]> d
    ∧ ChannelData.dump cd !! "packages" = Some (VDict packages)
    ∧ ∀ name v, packages !! name = Some v →
        ∃ info, ChannelData._groups cd !! name = Some info
                ∧ VDict (ChannelGroupInfo.dump info) = v.
Proof.
  intros Hparse Htag Hdom.
  destruct (from_data_Ok _ _ Hparse)
    as (tag & subdirs & packages & _ & _ & Hsub & Hpk & Hcd & Hin & Hout).
  exists subdirs, packages.
  assert ((λ group, VDict (ChannelGroupInfo.dump group))
            <$> ChannelData._groups cd = packages) as Hgroups.
  { apply map_eq. intros name. rewrite lookup_fmap.
    destruct (packages !! name) as [v|] eqn:Hv.
    - destruct (Hin _ _ Hv) as (bag & -> & ->). done.
    - by rewrite (Hout _ Hv). }
  assert (ChannelData.dump cd = <["subdirs" := of_strs (sorted subdirs)]> d) as Hdump.
  { apply map_eq. intros key. unfold ChannelData.dump, ChannelData.subdirs.
    rewrite Hgroups, Hcd.
    destruct (decide (key = "subdirs")) as [->|Hs];
      [by rewrite !lookup_insert_eq|].
    rewrite !(lookup_insert_ne _ "subdirs") by done.
    destruct (decide (key = "packages")) as [->|Hp];
      [by rewrite lookup_insert_eq|].
    rewrite lookup_insert_ne by done.
    destruct (decide (key = "channeldata_version")) as [->|Hv];
      [by rewrite lookup_insert_eq|].
    rewrite lookup_insert_ne, lookup_empty by done.
    symmetry. apply not_elem_of_dom. rewrite Hdom.
    rewrite !elem_of_union, !elem_of_singleton. by intros [[?|?]|?]. }
  repeat split; try done.
  - rewrite Hdump. by rewrite lookup_insert_ne.
  - intros name v Hv. destruct (Hin _ _ Hv) as (bag & -> & Hg). by eexists.
Qed.

(** The field [version] is read lazily: a group without it exists, and
    only reading the field raises. *)
Lemma version_lazy name bag :
  bag !! "version" = None →
  ChannelGroupInfo.version (ChannelGroupInfo.init name bag)
  = Raise (KeyError "version").
Proof.
  intros Hbag. unfold ChannelGroupInfo.version, dict_getitem; simpl. by rewrite Hbag.
Qed.

(** C8: on a document that has a tag, [from_data] raises [InvalidChannel]
    exactly when the tag is not equal to [1]; that depends on nothing else
    in the document, so no group is looked at before.  With a tag equal
    to [1], a list of strings for [subdirs] and a dictionary of field bags
    for [packages], [from_data] returns a snapshot that holds every field
    bag as it is: a bag without [version] is accepted, and reading that
    field later is what raises. *)
Theorem from_data_validation (d : gmap string value) (tag : value) :
  d !! "channeldata_version" = Some tag →
  (ChannelData.from_data d = Raise InvalidChannel
   ↔ value_eq_int tag ChannelData.VERSION = false)
  ∧ (value_eq_int tag ChannelData.VERSION = true →
     ∀ subdirs (packages : gmap string (gmap string value)),
       d !! "subdirs" = Some (of_strs subdirs) →
       d !! "packages" = Some (VDict (VDict <$> packages)) →
       ∃ cd,
         ChannelData.from_data d = Ok cd
         ∧ ∀ name bag, packages !! name = Some bag →
             ∃ info,
               ChannelData._groups cd !! name = Some info
               ∧ ChannelGroupInfo.dump info = bag
               ∧ (bag !! "version" = None →
                  ChannelGroupInfo.version info = Raise (KeyError "version"))).
Proof.
  intros Htag. split; [by apply from_data_InvalidChannel|].
  intros Heq subdirs packages Hsub Hpk.
  destruct (from_data_total d tag subdirs packages) as [cd Hcd]; try done.
  exists cd. split; [done|]. intros name bag Hbag.
  destruct (from_data_Ok _ _ Hcd)
    as (tag' & subdirs' & packages' & _ & _ & _ & Hpk' & _ & Hin & _).
  rewrite Hpk in Hpk'. injection Hpk' as <-.
  destruct (Hin name (VDict bag)) as (bag' & [= <-] & Hinfo).
  { by rewrite lookup_fmap, Hbag. }
  eexists. split; [done|]. split; [done|]. apply version_lazy.
Qed.
End round_trip.

(** ** [rescale] *)

Section rescale.
Context `{!PyHash} `{!VersionOrder K}.
Context (repos : list RepoData.t).

(** The inner loop. *)
Lemma scan_fold name (rs : list RepoData.t) packages channel_subdirs :
  foldl (ChannelData.scan_step name) (packages, channel_subdirs) rs
  = ((packages ++ records name rs)%list, channel_subdirs ∪ containing name rs).
Proof.
  revert packages channel_subdirs.
  induction rs as [|repo rs IH]; intros packages channel_subdirs.
  - simpl. unfold containing. rewrite filter_nil. simpl.
    by rewrite app_nil_r, (right_id_L ∅ (∪)).
  - cbn [foldl]. unfold records, containing.
    rewrite bind_cons, filter_cons. unfold ChannelData.scan_step at 2.
    destruct (RepoData.groups repo !! name) as [recs|] eqn:Hrecs.
    + rewrite IH. unfold records, containing. rewrite decide_True by done.
      rewrite fmap_cons, list_to_set_cons. simpl.
      by rewrite (assoc_L (++)), (assoc_L (∪)).
    + rewrite IH. unfold records, containing.
      rewrite decide_False by (by intros [? ?]). done.
Qed.

(** One turn of the outer loop. *)
Lemma rescale_step_eq channel_subdirs groups name info :
  ChannelData.rescale_step repos (channel_subdirs, groups) (name, info)
  = o ← rescaled_group name info repos;
    Ok (channel_subdirs ∪ containing name repos,
        match o with
        | Some modified_info => <[name := modified_info]> groups
        | None => groups
        end).
Proof.
  unfold ChannelData.rescale_step, rescaled_group, candidates.
  rewrite scan_fold. rewrite app_nil_l.
  destruct (records name repos) as [|package packages]; [done|].
  destruct (py_max _) as [[order timestamp]|e]; done.
Qed.

(** The outer loop. *)
Lemma rescale_loop items channel_subdirs groups channel_subdirs' groups' :
  NoDup items.*1 →
  foldM (ChannelData.rescale_step repos) (channel_subdirs, groups) items
  = Ok (channel_subdirs', groups') →
  channel_subdirs'
  = channel_subdirs ∪ ⋃ ((λ item, containing item.1 repos) <$> items)
  ∧ (∀ name info, (name, info) ∈ items →
       ∃ o, rescaled_group name info repos = Ok o
            ∧ groups' !! name = from_option Some (groups !! name) o)
  ∧ (∀ name, name ∉ items.*1 → groups' !! name = groups !! name).
Proof.
  revert channel_subdirs groups.
  induction items as [|[n i] items IH]; intros channel_subdirs groups Hnd.
  - simpl. intros [= <- <-]. rewrite (right_id_L ∅ (∪)).
    split; [done|]. split; [|done]. intros name info Hin.
    by apply elem_of_nil in Hin.
  - apply NoDup_cons in Hnd as [Hn Hnd].
    cbn [foldM]. rewrite rescale_step_eq.
    destruct (rescaled_group n i repos) as [o|e] eqn:Ho; [|done].
    cbn [mbind result_bind]. intros Hloop.
    destruct (IH _ _ Hnd Hloop) as (-> & Hin & Hout).
    split; [|split].
    + rewrite fmap_cons, union_list_cons. simpl. by rewrite (assoc_L (∪)).
    + intros name info [[= -> ->]|Hitem]%elem_of_cons.
      * exists o. split; [done|]. rewrite Hout by done.
        destruct o; simpl; [apply lookup_insert_eq|done].
      * destruct (Hin _ _ Hitem) as (o' & Ho' & Hlookup).
        exists o'. split; [done|]. rewrite Hlookup.
        assert (name ≠ n) as Hne.
        { intros ->. apply Hn. apply list_elem_of_fmap. by exists (n, info). }
        destruct o; [by rewrite lookup_insert_ne|done].
    + intros name [Hne Hname]%not_elem_of_cons. rewrite Hout by done.
      destruct o; [by rewrite lookup_insert_ne|done].
Qed.

Lemma rescale_loop_total items channel_subdirs groups :
  (∀ name info, (name, info) ∈ items →
     ∃ o, rescaled_group name info repos = Ok o) →
  ∃ st, foldM (ChannelData.rescale_step repos) (channel_subdirs, groups) items = Ok st.
Proof.
  revert channel_subdirs groups.
  induction items as [|[n i] items IH]; intros channel_subdirs groups Hok.
  - by eexists.
  - cbn [foldM]. rewrite rescale_step_eq.
    destruct (Hok n i) as [o ->]; [left|]. cbn [mbind result_bind].
    apply IH. intros name info Hin. apply Hok. by right.
Qed.

(** The snapshot [rescale] returns. *)
Lemma rescale_Ok cd r :
  ChannelData.rescale cd repos = Ok r →
  NoDup (ChannelData._subdirs r)
  ∧ (∀ s, s ∈ ChannelData._subdirs r
          ↔ ∃ name, name ∈ ChannelData.keys cd ∧ s ∈ containing name repos)
  ∧ (∀ name info, ChannelData._groups cd !! name = Some info →
       rescaled_group name info repos = Ok (ChannelData._groups r !! name))
  ∧ (∀ name, ChannelData._groups cd !! name = None →
       ChannelData._groups r !! name = None).
Proof.
  unfold ChannelData.rescale.
  destruct (foldM _ _ _) as [[channel_subdirs groups]|] eqn:Hloop; [|done].
  cbn [mbind result_bind]. intros [= <-]. simpl.
  apply rescale_loop in Hloop as (-> & Hin & Hout);
    [|apply NoDup_fst_map_to_list].
  split; [apply NoDup_elements|]. split; [|split].
  - intros s. rewrite elem_of_elements, (left_id_L ∅ (∪)), elem_of_union_list.
    unfold ChannelData.keys. split.
    + intros (X & [[name info] [-> Hitem]]%list_elem_of_fmap & Hs).
      apply elem_of_map_to_list in Hitem. exists name. split; [|done].
      apply elem_of_dom. by eexists.
    + intros (name & [info Hinfo]%elem_of_dom & Hs).
      exists (containing name repos). split; [|done].
      apply list_elem_of_fmap. exists (name, info). split; [done|].
      by apply elem_of_map_to_list.
  - intros name info Hinfo.
    destruct (Hin name info) as (o & -> & ->); [by apply elem_of_map_to_list|].
    rewrite lookup_empty. by destruct o.
  - intros name Hnone. rewrite Hout, ?lookup_empty; [done|].
    intros [[n i] [-> Hitem]]%list_elem_of_fmap.
    apply elem_of_map_to_list in Hitem. simpl in *. congruence.
Qed.

(** [rescale] returns as soon as [max] orders the records of every
    group. *)
Lemma rescale_total cd :
  (∀ name info, ChannelData._groups cd !! name = Some info →
     ∃ o, rescaled_group name info repos = Ok o) →
  ∃ r, ChannelData.rescale cd repos = Ok r.
Proof.
  intros Hok. unfold ChannelData.rescale.
  destruct (rescale_loop_total (map_to_list (ChannelData._groups cd)) ∅ ∅)
    as [[channel_subdirs groups] ->].
  { intros name info Hin. apply (Hok name info). by apply elem_of_map_to_list. }
  by eexists.
Qed.
End rescale.

(** ** The records and the subdirs [rescale] sees *)

Lemma elem_of_records (name : string) (repos : list RepoData.t) (rec : PackageRecord.t) :
  rec ∈ records name repos
  ↔ ∃ repo recs,
      repo ∈ repos ∧ RepoData.groups repo !! name = Some recs ∧ rec ∈ recs.
Proof.
  unfold records. rewrite list_elem_of_bind. split.
  - intros (repo & Hrec & Hrepo).
    destruct (RepoData.groups repo !! name) as [recs|] eqn:Hrecs; simpl in Hrec.
    + by exists repo, recs.
    + by apply elem_of_nil in Hrec.
  - intros (repo & recs & Hrepo & Hrecs & Hrec).
    exists repo. by rewrite Hrecs.
Qed.


Lemma records_nil (name : string) (repos : list RepoData.t) :
  (∀ repo recs,
     repo ∈ repos → RepoData.groups repo !! name = Some recs → recs = []) →
  records name repos = [].
Proof.
  intros Hnone. destruct (records name repos) as [|rec recs] eqn:Hrecords; [done|].
  assert (rec ∈ records name repos) as Hrec by (rewrite Hrecords; left).
  apply elem_of_records in Hrec as (repo & recs' & Hrepo & Hrecs' & Hin).
  rewrite (Hnone _ _ Hrepo Hrecs') in Hin. by apply elem_of_nil in Hin.
Qed.

Lemma of_strs_inj (l1 l2 : list string) : of_strs l1 = of_strs l2 → l1 = l2.
Proof.
  unfold of_strs. intros [= Heq]. revert l2 Heq.
  induction l1 as [|s1 l1 IH]; intros [|s2 l2]; simpl; try done.
  intros [= -> Heq]. f_equal. by apply IH.
Qed.

(** ** [max] *)

Section py_max.
Context `{!VersionOrder K}.

Lemma py_max_loop_elem (rest : list (K * option Z)) first m :
  foldM (λ maxitem item,
           gt ← pair_gt item maxitem;
           Ok (if gt : bool then item else maxitem)) first rest = Ok m →
  m = first ∨ m ∈ rest.
Proof.
  revert first. induction rest as [|item rest IH]; intros first; simpl.
  - intros [= <-]. by left.
  - destruct (pair_gt item first) as [gt|]; simpl; [|done].
    intros [->|Hin]%IH.
    + destruct gt; [right; left|by left].
    + right. by right.
Qed.

(** The maximum is one of the items. *)
Lemma py_max_elem (items : list (K * option Z)) m :
  py_max items = Ok m → m ∈ items.
Proof.
  destruct items as [|first rest]; simpl; [done|].
  intros [->|Hin]%py_max_loop_elem; [left|by right].
Qed.

(** Where [>] answers, it is the lexicographic order. *)
Lemma pair_gt_Ok (a b : K * option Z) (gt : bool) :
  pair_gt a b = Ok gt → gt = pair_gtb a b.
Proof.
  unfold pair_gt, pair_gtb, timestamp_eqb, timestamp_gt.
  destruct (negb (order_eqb a.1 b.1)); [by intros [= <-]|].
  destruct a.2 as [x|], b.2 as [y|]; simpl; try (by intros [= <-]).
  destruct (Z.eqb_spec x y) as [->|Hne]; simpl; intros [= <-]; [|done].
  by rewrite Z.ltb_irrefl.
Qed.

Lemma pair_gt_comparable (a b : K * option Z) :
  (order_eqb a.1 b.1 = true → (is_Some a.2 ↔ is_Some b.2)) →
  pair_gt a b = Ok (pair_gtb a b).
Proof.
  unfold pair_gt, pair_gtb, timestamp_eqb, timestamp_gt.
  destruct (order_eqb a.1 b.1); simpl; [|done].
  intros Hsome. specialize (Hsome eq_refl).
  destruct a.2 as [x|], b.2 as [y|]; simpl; try done.
  - destruct (Z.eqb_spec x y) as [->|Hne]; simpl; [|done].
    by rewrite Z.ltb_irrefl.
  - destruct (proj1 Hsome) as [? [=]]. by eexists.
  - destruct (proj2 Hsome) as [? [=]]. by eexists.
Qed.

Context `{!VersionOrderLaws K}.

Lemma order_ltb_false_l (a b : K) : order_eqb a b = true → order_ltb a b = false.
Proof. rewrite order_eqb_ltb. by intros [?%negb_true_iff _]%andb_true_iff. Qed.

Lemma order_ltb_false_r (a b : K) : order_eqb a b = true → order_ltb b a = false.
Proof. rewrite order_eqb_ltb. by intros [_ ?%negb_true_iff]%andb_true_iff. Qed.

Lemma order_ltb_trans (a b c : K) :
  order_ltb a b = true → order_ltb b c = true → order_ltb a c = true.
Proof.
  intros Hab Hbc. destruct (order_ltb_cotrans a c b Hab) as [Hac|Hcb]; [done|].
  apply order_ltb_asym in Hbc. congruence.
Qed.

Lemma order_eqb_trans (a b c : K) :
  order_eqb a b = true → order_eqb b c = true → order_eqb a c = true.
Proof.
  intros Hab Hbc. rewrite order_eqb_ltb. apply andb_true_iff.
  split; apply negb_true_iff.
  - destruct (order_ltb a c) eqn:Hac; [|done].
    destruct (order_ltb_cotrans a b c Hac) as [H|H].
    + by rewrite (order_ltb_false_l _ _ Hab) in H.
    + by rewrite (order_ltb_false_l _ _ Hbc) in H.
  - destruct (order_ltb c a) eqn:Hca; [|done].
    destruct (order_ltb_cotrans c b a Hca) as [H|H].
    + by rewrite (order_ltb_false_r _ _ Hbc) in H.
    + by rewrite (order_ltb_false_r _ _ Hab) in H.
Qed.

Lemma order_ltb_eqb_l (a b c : K) :
  order_eqb a b = true → order_ltb b c = true → order_ltb a c = true.
Proof.
  intros Hab Hbc. destruct (order_ltb_cotrans b a c Hbc) as [H|H]; [|done].
  by rewrite (order_ltb_false_r _ _ Hab) in H.
Qed.

Lemma order_ltb_eqb_r (a b c : K) :
  order_ltb a b = true → order_eqb b c = true → order_ltb a c = true.
Proof.
  intros Hab Hbc. destruct (order_ltb_cotrans a c b Hab) as [H|H]; [done|].
  by rewrite (order_ltb_false_r _ _ Hbc) in H.
Qed.

Lemma order_eqb_sym (a b : K) : order_eqb a b = order_eqb b a.
Proof. rewrite !order_eqb_ltb. apply andb_comm. Qed.

Lemma order_eqb_false (a b : K) : order_ltb a b = true → order_eqb b a = false.
Proof.
  intros Hab. rewrite order_eqb_ltb, Hab. simpl. apply andb_false_r.
Qed.

Lemma pair_gtb_inv (a b : K * option Z) :
  pair_gtb a b = true →
  order_ltb b.1 a.1 = true
  ∨ (order_eqb a.1 b.1 = true ∧ ∃ x y, a.2 = Some x ∧ b.2 = Some y ∧ y < x).
Proof.
  unfold pair_gtb. destruct (order_eqb a.1 b.1); simpl; [|by left].
  destruct a.2 as [x|], b.2 as [y|]; try done.
  intros Hlt%Z.ltb_lt. right. split; [done|]. by exists x, y.
Qed.

Lemma pair_gtb_ltb (a b : K * option Z) :
  order_ltb b.1 a.1 = true → pair_gtb a b = true.
Proof.
  intros Hlt. unfold pair_gtb. by rewrite (order_eqb_false _ _ Hlt).
Qed.

Lemma pair_gtb_trans (a b c : K * option Z) :
  pair_gtb a b = true → pair_gtb b c = true → pair_gtb a c = true.
Proof.
  intros [Hab|(Hab & x & y & Hx & Hy & Hxy)]%pair_gtb_inv
         [Hbc|(Hbc & y' & z & Hy' & Hz & Hyz)]%pair_gtb_inv.
  - apply pair_gtb_ltb. by eapply order_ltb_trans.
  - apply pair_gtb_ltb. eapply order_ltb_eqb_l; [|done].
    by rewrite order_eqb_sym.
  - apply pair_gtb_ltb. eapply order_ltb_eqb_r; [done|]. by rewrite order_eqb_sym.
  - unfold pair_gtb. rewrite (order_eqb_trans _ _ _ Hab Hbc). simpl.
    rewrite Hx, Hz. apply Z.ltb_lt. rewrite Hy in Hy'. injection Hy' as <-. lia.
Qed.

Lemma pair_gtb_asym (a b : K * option Z) :
  pair_gtb a b = true → pair_gtb b a = false.
Proof.
  intros [Hab|(Hab & x & y & Hx & Hy & Hxy)]%pair_gtb_inv; unfold pair_gtb.
  - rewrite order_eqb_sym, (order_eqb_false _ _ Hab). simpl.
    by apply order_ltb_asym.
  - rewrite order_eqb_sym, Hab. simpl. rewrite Hx, Hy. apply Z.ltb_ge. lia.
Qed.

Lemma pair_gtb_irrefl (a : K * option Z) : pair_gtb a a = false.
Proof.
  destruct (pair_gtb a a) eqn:Hgt; [|done].
  by rewrite (pair_gtb_asym _ _ Hgt) in Hgt.
Qed.

(** The loop of [max] ends on an item that is the first one or above it,
    and that no later item is above. *)
Lemma py_max_loop_greatest (rest : list (K * option Z)) first m :
  foldM (λ maxitem item,
           gt ← pair_gt item maxitem;
           Ok (if gt : bool then item else maxitem)) first rest = Ok m →
  (m = first ∨ pair_gtb m first = true) ∧ ∀ x, x ∈ rest → pair_gtb x m = false.
Proof.
  revert first. induction rest as [|item rest IH]; intros first; simpl.
  - intros [= <-]. split; [by left|]. intros x Hx. by apply elem_of_nil in Hx.
  - destruct (pair_gt item first) as [gt|] eqn:Hgt; simpl; [|done].
    apply pair_gt_Ok in Hgt. intros [Hm Hrest]%IH. destruct gt.
    + assert (pair_gtb m first = true) as Hfirst.
      { destruct Hm as [->|Hm]; [done|]. by eapply pair_gtb_trans. }
      split; [by right|].
      intros x [->|Hx]%elem_of_cons; [|by apply Hrest].
      destruct Hm as [->|Hm]; [apply pair_gtb_irrefl|by apply pair_gtb_asym].
    + split; [done|].
      intros x [->|Hx]%elem_of_cons; [|by apply Hrest].
      destruct Hm as [->|Hm]; [done|].
      destruct (pair_gtb item m) eqn:Hitem; [|done].
      by rewrite (pair_gtb_trans _ _ _ Hitem Hm) in Hgt.
Qed.

(** What [max] returns is an item that no item is above. *)
Lemma py_max_greatest (items : list (K * option Z)) m :
  py_max items = Ok m → m ∈ items ∧ ∀ x, x ∈ items → pair_gtb x m = false.
Proof.
  intros Hmax. split; [by apply py_max_elem|].
  destruct items as [|first rest]; simpl in Hmax; [done|].
  apply py_max_loop_greatest in Hmax as [Hm Hrest].
  intros x [->|Hx]%elem_of_cons; [|by apply Hrest].
  destruct Hm as [->|Hm]; [apply pair_gtb_irrefl|by apply pair_gtb_asym].
Qed.

(** An item that is not above [m]: its order key is not above that of [m],
    and under an equal order key its timestamp is not above that of [m]. *)
Lemma pair_gtb_false (x m : K * option Z) :
  pair_gtb x m = false →
  order_ltb m.1 x.1 = false
  ∧ (order_eqb x.1 m.1 = true →
     ∀ tx tm, x.2 = Some tx → m.2 = Some tm → tx ≤ tm).
Proof.
  unfold pair_gtb. destruct (order_eqb x.1 m.1) eqn:Heq; simpl.
  - intros Hts. split; [by apply order_ltb_false_r|].
    intros _ tx tm Hx Hm. rewrite Hx, Hm in Hts. by apply Z.ltb_ge in Hts.
  - intros Hlt. by split.
Qed.

Lemma py_max_loop_total (rest : list (K * option Z)) first :
  ties_comparable (first :: rest) →
  ∃ m, foldM (λ maxitem item,
                gt ← pair_gt item maxitem;
                Ok (if gt : bool then item else maxitem)) first rest = Ok m.
Proof.
  revert first. induction rest as [|item rest IH]; intros first Hties; simpl.
  - by eexists.
  - rewrite (pair_gt_comparable item first); simpl.
    + apply IH. intros a b Ha Hb. apply Hties.
      * apply elem_of_cons in Ha as [->|Ha]; [|by do 2 right].
        destruct (pair_gtb item first); [right|]; left.
      * apply elem_of_cons in Hb as [->|Hb]; [|by do 2 right].
        destruct (pair_gtb item first); [right|]; left.
    + apply Hties; [right|]; left.
Qed.

Lemma order_eqb_refl (a : K) : order_eqb a a = true.
Proof.
  rewrite order_eqb_ltb. destruct (order_ltb a a) eqn:Hlt; [|done].
  by rewrite (order_ltb_asym _ _ Hlt) in Hlt.
Qed.

Lemma timestamp_le_refl (a : option Z) : timestamp_le a a.
Proof. destruct a as [x|]; [right; by exists x, x|by left]. Qed.

Lemma timestamp_le_trans (a b c : option Z) :
  timestamp_le a b → timestamp_le b c → timestamp_le a c.
Proof.
  intros [[-> ->]|(x & y & -> & -> & Hxy)] [[? ?]|(y' & z & ? & -> & Hyz)];
    simplify_eq.
  - by left.
  - right. exists x, z. split; [done|]. split; [done|lia].
Qed.

Lemma pair_le_refl (a : K * option Z) : pair_le a a.
Proof. right. split; [apply order_eqb_refl|apply timestamp_le_refl]. Qed.

Lemma pair_le_trans (a b c : K * option Z) :
  pair_le a b → pair_le b c → pair_le a c.
Proof.
  intros [Hab|[Hab Htab]] [Hbc|[Hbc Htbc]].
  - left. by eapply order_ltb_trans.
  - left. by eapply order_ltb_eqb_r.
  - left. by eapply order_ltb_eqb_l.
  - right. split; [by eapply order_eqb_trans|by eapply timestamp_le_trans].
Qed.

(** An answer of [>], either way, orders the two pairs. *)
Lemma pair_gt_true_le (a b : K * option Z) :
  pair_gt a b = Ok true → pair_le b a.
Proof.
  unfold pair_gt, pair_le, timestamp_gt.
  destruct (order_eqb a.1 b.1) eqn:Heq; simpl.
  - rewrite order_eqb_sym, Heq.
    destruct (timestamp_eqb a.2 b.2); simpl; [done|].
    destruct a.2 as [x|], b.2 as [y|]; try done.
    intros [= Hlt%Z.ltb_lt]. right. split; [done|].
    right. exists y, x. split; [done|]. split; [done|lia].
  - intros [= Hlt]. by left.
Qed.

Lemma pair_gt_false_le (a b : K * option Z) :
  pair_gt a b = Ok false → pair_le a b.
Proof.
  unfold pair_gt, pair_le, timestamp_gt, timestamp_eqb.
  destruct (order_eqb a.1 b.1) eqn:Heq; simpl.
  - destruct a.2 as [x|], b.2 as [y|]; simpl; try done.
    + destruct (Z.eqb_spec x y) as [->|Hne]; simpl.
      * intros _. right. split; [done|]. right. exists y, y. by repeat split.
      * intros [= Hge%Z.ltb_ge]. right. split; [done|].
        right. exists x, y. split; [done|]. split; [done|lia].
    + intros _. right. split; [done|]. by left.
  - intros [= Hlt]. left. rewrite order_eqb_ltb, Hlt in Heq. simpl in Heq.
    rewrite andb_true_r in Heq. by apply negb_false_iff in Heq.
Qed.

(** The loop of [max] ends on an item that the first item and every later
    item are not above, each in an order that [>] has settled. *)
Lemma py_max_loop_le (rest : list (K * option Z)) first m :
  foldM (λ maxitem item,
           gt ← pair_gt item maxitem;
           Ok (if gt : bool then item else maxitem)) first rest = Ok m →
  pair_le first m ∧ ∀ x, x ∈ rest → pair_le x m.
Proof.
  revert first. induction rest as [|item rest IH]; intros first; simpl.
  - intros [= <-]. split; [apply pair_le_refl|].
    intros x Hx. by apply elem_of_nil in Hx.
  - destruct (pair_gt item first) as [[|]|] eqn:Hgt; simpl; [| |done].
    + intros [Hm Hrest]%IH. apply pair_gt_true_le in Hgt.
      split; [by eapply pair_le_trans|].
      intros x [->|Hx]%elem_of_cons; [done|by apply Hrest].
    + intros [Hm Hrest]%IH. apply pair_gt_false_le in Hgt.
      split; [done|].
      intros x [->|Hx]%elem_of_cons; [by eapply pair_le_trans|by apply Hrest].
Qed.

(** What [max] returns is an item that no item is above. *)
Lemma py_max_le (items : list (K * option Z)) m :
  py_max items = Ok m → ∀ x, x ∈ items → pair_le x m.
Proof.
  destruct items as [|first rest]; simpl; [done|].
  intros [Hfirst Hrest]%py_max_loop_le x [->|Hx]%elem_of_cons;
    [done|by apply Hrest].
Qed.

(** Nothing that is not above [m] has an order key above that of [m]. *)
Lemma pair_le_key (x m : K * option Z) : pair_le x m → order_ltb m.1 x.1 = false.
Proof.
  intros [Hlt|[Heq _]]; [by apply order_ltb_asym|by apply order_ltb_false_r].
Qed.

Lemma pair_le_timestamp (x m : K * option Z) :
  pair_le x m → order_eqb x.1 m.1 = true → timestamp_le x.2 m.2.
Proof.
  intros [Hlt|[_ Hts]] Heq; [|done].
  apply order_ltb_false_l in Heq. congruence.
Qed.

(** [max] answers on a list that is not empty and has no tie between an
    absent and a present timestamp. *)
Lemma py_max_total (items : list (K * option Z)) :
  items ≠ [] → ties_comparable items → ∃ m, py_max items = Ok m.
Proof.
  destruct items as [|first rest]; [done|]. intros _. apply py_max_loop_total.
Qed.
End py_max.

(** ** What [rescale] does to the groups *)

Section rescale_groups.
Context `{!PyHash} `{!VersionOrder K}.

(** A group of the result comes from a group of the snapshot that has
    records, through [update_subdirs] and [update_latest]. *)
Lemma rescale_group_inv cd (repos : list RepoData.t) r name g :
  ChannelData.rescale cd repos = Ok r →
  ChannelData._groups r !! name = Some g →
  ∃ info order timestamp,
    ChannelData._groups cd !! name = Some info
    ∧ records name repos ≠ []
    ∧ py_max (candidates (records name repos)) = Ok (order, timestamp)
    ∧ g = ChannelGroupInfo.update_latest
            (ChannelGroupInfo.update_subdirs info
               (sorted_set
                  (list_to_set (PackageRecord.subdir <$> records name repos))))
            (order_str order) timestamp.
Proof.
  intros Hr Hg. destruct (rescale_Ok repos cd r Hr) as (_ & _ & Hin & Hout).
  destruct (ChannelData._groups cd !! name) as [info|] eqn:Hinfo;
    [|rewrite (Hout _ Hinfo) in Hg; done].
  specialize (Hin _ _ Hinfo). rewrite Hg in Hin. unfold rescaled_group in Hin.
  destruct (records name repos) as [|package packages] eqn:Hrecords; [done|].
  destruct (py_max _) as [[order timestamp]|] eqn:Hmax; [|done].
  cbn [mbind result_bind] in Hin. injection Hin as <-.
  by exists info, order, timestamp.
Qed.

(** A group of the snapshot that has records is in the result. *)
Lemma rescale_group_kept cd (repos : list RepoData.t) r name info :
  ChannelData.rescale cd repos = Ok r →
  ChannelData._groups cd !! name = Some info →
  records name repos ≠ [] →
  is_Some (ChannelData._groups r !! name).
Proof.
  intros Hr Hinfo Hrecords.
  destruct (rescale_Ok repos cd r Hr) as (_ & _ & Hin & _).
  specialize (Hin _ _ Hinfo). unfold rescaled_group in Hin.
  destruct (records name repos) as [|package packages]; [done|].
  destruct (py_max _) as [[order timestamp]|]; [|done].
  cbn [mbind result_bind] in Hin. injection Hin as <-. by eexists.
Qed.

(** C2: a group of the snapshot that [rescale] returns has for [version]
    the string conversion of the order key of the winning pair, the pair
    [max] picks among those of the records found for the group, and not
    the version text of any record; its [timestamp] is the timestamp of
    that pair, the field being absent when that timestamp is [None] or
    [0]. *)
Theorem rescale_latest cd (repos : list RepoData.t) r name g :
  ChannelData.rescale cd repos = Ok r →
  ChannelData._groups r !! name = Some g →
  ∃ winner order timestamp,
    winner ∈ records name repos
    ∧ create_order (PackageRecord.version winner) = order
    ∧ PackageRecord.timestamp winner = timestamp
    ∧ py_max (candidates (records name repos)) = Ok (order, timestamp)
    ∧ ChannelGroupInfo._data g !! "version" = Some (VStr (order_str order))
    ∧ ChannelGroupInfo._data g !! "timestamp"
      = match timestamp with
        | None => None
        | Some z => if decide (z = 0) then None else Some (VInt z)
        end.
Proof.
  intros Hr Hg.
  destruct (rescale_group_inv _ _ _ _ _ Hr Hg)
    as (info & order & timestamp & _ & _ & Hmax & ->).
  pose proof (py_max_elem _ _ Hmax) as Hwin.
  apply list_elem_of_fmap in Hwin as (winner & [= -> ->] & Hwinner).
  exists winner, (create_order (PackageRecord.version winner)),
    (PackageRecord.timestamp winner).
  split; [done|]. split; [done|]. split; [done|]. split; [done|].
  split; [apply update_latest_version|].
  rewrite <- latest_timestamp_decide. apply update_latest_timestamp.
Qed.

(** C5: a group name for which no repo holds a record is not a key of the
    snapshot that [rescale] returns. *)
Theorem rescale_drops cd (repos : list RepoData.t) r name :
  ChannelData.rescale cd repos = Ok r →
  name ∈ ChannelData.keys cd →
  (∀ repo recs,
     repo ∈ repos → RepoData.groups repo !! name = Some recs → recs = []) →
  ChannelData.contains r name = false
  ∧ ChannelData._groups r !! name = None
  ∧ ChannelData.getitem r name = Raise (KeyError name).
Proof.
  intros Hr _ Hnone%records_nil.
  assert (ChannelData._groups r !! name = None) as Hgone.
  { destruct (ChannelData._groups r !! name) as [g|] eqn:Hg; [|done].
    by destruct (rescale_group_inv _ _ _ _ _ Hr Hg) as (? & ? & ? & _ & ? & _). }
  split; [|split; [done|]].
  - unfold ChannelData.contains. apply bool_decide_eq_false.
    by apply not_elem_of_dom.
  - unfold ChannelData.getitem, dict_getitem. by rewrite Hgone.
Qed.

(** C10: the invariant that every key is the name of its group holds of
    the snapshots [from_data] returns, and is kept by [merge] and by
    [rescale]. *)
Theorem keys_match_preserved :
  (∀ d cd, ChannelData.from_data d = Ok cd → keys_match cd)
  ∧ (∀ A B R,
       keys_match A → keys_match B → ChannelData.merge A B = Ok R →
       keys_match R)
  ∧ (∀ cd (repos : list RepoData.t) r,
       keys_match cd → ChannelData.rescale cd repos = Ok r → keys_match r).
Proof.
  split; [|split].
  - intros d cd Hcd key info Hinfo.
    destruct (from_data_Ok _ _ Hcd)
      as (_ & _ & packages & _ & _ & _ & _ & _ & Hin & Hout).
    destruct (packages !! key) as [v|] eqn:Hv.
    + destruct (Hin _ _ Hv) as (bag & _ & Hg). rewrite Hg in Hinfo.
      by injection Hinfo as <-.
    + rewrite (Hout _ Hv) in Hinfo. done.
  - intros A B R HA HB. rewrite merge_closed_form. intros [= <-] key info.
    simpl. intros [Hinfo|[_ Hinfo]]%lookup_union_Some_raw; eauto.
  - intros cd repos r Hcd Hr key g Hg.
    destruct (rescale_group_inv _ _ _ _ _ Hr Hg)
      as (info & order & timestamp & Hinfo & _ & _ & ->).
    rewrite update_latest_name, update_subdirs_name. by apply Hcd.
Qed.
End rescale_groups.

(** ** The winning record *)

Section winner.
Context `{!PyHash} `{!VersionOrder K} `{!VersionOrderLaws K}.

(** X20: when [rescale] returns, the pair behind a group of the result is
    that of a record found for the group.  No record found for the group
    has an order key above that of this record; and a record of an equal
    order key has, like this record, no timestamp, or has, like it, a
    timestamp, which is then at most that of this record.  So among the
    records of the highest order key none without timestamp stands beside
    one with a timestamp. *)
Lemma rescale_winner_greatest cd (repos : list RepoData.t) r name g :
  ChannelData.rescale cd repos = Ok r →
  ChannelData._groups r !! name = Some g →
  ∃ winner,
    winner ∈ records name repos
    ∧ ChannelGroupInfo._data g !! "version"
      = Some (VStr (order_str (create_order (PackageRecord.version winner))))
    ∧ ChannelGroupInfo._data g !! "timestamp"
      = latest_timestamp (PackageRecord.timestamp winner)
    ∧ ∀ rec, rec ∈ records name repos →
        order_ltb (create_order (PackageRecord.version winner))
                  (create_order (PackageRecord.version rec)) = false
        ∧ (order_eqb (create_order (PackageRecord.version rec))
                     (create_order (PackageRecord.version winner)) = true →
           (PackageRecord.timestamp rec = None
            ∧ PackageRecord.timestamp winner = None)
           ∨ ∃ t tw,
               PackageRecord.timestamp rec = Some t
               ∧ PackageRecord.timestamp winner = Some tw
               ∧ t ≤ tw).
Proof.
  intros Hr Hg.
  destruct (rescale_group_inv _ _ _ _ _ Hr Hg)
    as (info & order & timestamp & _ & _ & Hmax & ->).
  pose proof (py_max_elem _ _ Hmax) as Hwin.
  pose proof (py_max_le _ _ Hmax) as Hle.
  apply list_elem_of_fmap in Hwin as (winner & [= -> ->] & Hwinner).
  exists winner. split; [done|]. split; [apply update_latest_version|].
  split; [apply update_latest_timestamp|].
  intros rec Hrec.
  assert (pair_le
            (create_order (PackageRecord.version rec), PackageRecord.timestamp rec)
            (create_order (PackageRecord.version winner),
             PackageRecord.timestamp winner)) as Hrecle.
  { apply Hle. apply list_elem_of_fmap. by exists rec. }
  split; [by apply pair_le_key in Hrecle|].
  intros Heq. by apply (pair_le_timestamp _ _ Hrecle).
Qed.
End winner.

(** X21: [rescale] returns when no group has a tie between a record with a
    timestamp and a record without. *)
Lemma rescale_returns `{!PyHash} `{!VersionOrder K} cd (repos : list RepoData.t) :
  (∀ name, name ∈ ChannelData.keys cd →
     ties_comparable (candidates (records name repos))) →
  ∃ r, ChannelData.rescale cd repos = Ok r.
Proof.
  intros Hties. apply rescale_total. intros name info Hinfo.
  unfold rescaled_group.
  destruct (records name repos) as [|package packages] eqn:Hrecords;
    [by eexists|].
  destruct (py_max_total (candidates (package :: packages))) as [[order ts] ->].
  - done.
  - rewrite <- Hrecords. apply Hties. apply elem_of_dom. by eexists.
  - by eexists.
Qed.

(** ** What [rescale] does to the subdirs *)

Section rescale_subdirs.
Context `{!PyHash} `{!VersionOrder K}.



End rescale_subdirs.

(** ** A tie between an absent and a present timestamp *)

Section tie.
Context `{!PyHash} `{!VersionOrder K}.

(** C1, at the input where the code leaves it: when two records of a group
    have equal order keys, one without timestamp and one with, [max] has
    to order [None] against an integer and [rescale] raises [TypeError];
    no record wins. *)
Theorem rescale_tie_raises (name version subdir : string) (info : ChannelGroupInfo.t)
    (ts : Z) (subdirs : list string) :
  order_eqb (create_order version) (create_order version) = true →
  ChannelData.rescale
    (ChannelData.init subdirs {[name := info]})
    [RepoData.mk subdir
       {[name := [PackageRecord.mk version None subdir;
                  PackageRecord.mk version (Some ts) subdir]]}]
  = Raise TypeError.
Proof.
  intros Hrefl. unfold ChannelData.rescale. simpl.
  rewrite map_to_list_singleton. cbn [foldM].
  rewrite rescale_step_eq. unfold rescaled_group, records.
  rewrite bind_singleton. simpl. rewrite lookup_singleton_eq. simpl.
  unfold pair_gt. simpl. by rewrite Hrefl.
Qed.
End tie.

(** * The properties at work *)

Section examples.
Local Existing Instances Demo.hash Demo.order.

(** The end-to-end example: [numpy] found in two repos. *)
Example rescale_end_to_end :
  ChannelData.rescale Demo.snapshot [Demo.linux; Demo.osx] = Ok Demo.rescaled
  ∧ ChannelData.dump Demo.rescaled !! "subdirs"
    = Some (of_strs ["linux-64"; "osx-64"]).
Proof. split; vm_compute; reflexivity. Qed.

(** The keys of the concrete setting are totally ordered. *)
Lemma demo_order_laws : VersionOrderLaws string.
Proof.
  assert (∀ a b : string, String.ltb a b = negb (String.leb b a)) as Hltb.
  { intros a b. unfold String.ltb, String.leb.
    rewrite (String.compare_antisym a b). by destruct (String.compare b a). }
  split; simpl.
  - intros a b. rewrite !Hltb, !negb_involutive.
    destruct (String.eqb_spec a b) as [->|Hne].
    + assert (String.leb b b = true) as ->; [|done].
      apply Is_true_true. apply (reflexivity (R := String.le)).
    + destruct (String.leb b a) eqn:Hba, (String.leb a b) eqn:Hab; try done.
      destruct Hne. by apply String.leb_antisym.
  - intros a b. rewrite !Hltb. intros Hba%negb_true_iff. apply negb_false_iff.
    destruct (String.leb_total a b) as [H|H]; [done|congruence].
  - intros a b c. rewrite !Hltb. intros Hca%negb_true_iff.
    destruct (String.leb b a) eqn:Hba; [|by left].
    destruct (String.leb c b) eqn:Hcb; [|by right].
    assert (String.le c a) as Hle.
    { transitivity b; by apply Is_true_true. }
    apply Is_true_true in Hle. congruence.
Qed.

Lemma rescale_tie_raises_witness :
  order_eqb (create_order "1.2.0") (create_order "1.2.0") = true
  ∧ ChannelData.rescale Demo.snapshot [Demo.tied] = Raise TypeError.
Proof.
  split; [reflexivity|].
  apply (rescale_tie_raises "numpy" "1.2.0" "linux-64" Demo.numpy 100 []).
  reflexivity.
Defined.

(** The same two records the other way round raise as well, and so does a
    tie in the last of three records. *)
Example rescale_tie_raises_reversed :
  ChannelData.rescale Demo.snapshot
    [RepoData.mk "linux-64"
       {["numpy" := [PackageRecord.mk "1.2.0" (Some 100) "linux-64";
                     PackageRecord.mk "1.1.0" (Some 300) "linux-64";
                     PackageRecord.mk "1.2.0" None "linux-64"]]}]
  = Raise TypeError.
Proof. vm_compute. reflexivity. Qed.

(** [merge]: [numpy] is in both snapshots and comes from the calling one;
    [zlib] comes from the other. *)
Example merge_keeps_self :
  ChannelData.merge Demo.snapshot Demo.other
  = Ok (ChannelData.init ["linux-64"; "win-64"]
          (<["numpy" := Demo.numpy]>
             {["zlib" := ChannelGroupInfo.init "zlib" {["version" := VStr "1.3"]}]})).
Proof. vm_compute. reflexivity. Qed.

Lemma rescale_latest_witness :
  ChannelData.rescale Demo.snapshot [Demo.linux; Demo.osx] = Ok Demo.rescaled
  ∧ ChannelData._groups Demo.rescaled !! "numpy" = Some Demo.rescaled_numpy
  ∧ ∃ winner order timestamp,
      winner ∈ records "numpy" [Demo.linux; Demo.osx]
      ∧ create_order (PackageRecord.version winner) = order
      ∧ PackageRecord.timestamp winner = timestamp
      ∧ py_max (candidates (records "numpy" [Demo.linux; Demo.osx]))
        = Ok (order, timestamp)
      ∧ ChannelGroupInfo._data Demo.rescaled_numpy !! "version"
        = Some (VStr (order_str order))
      ∧ ChannelGroupInfo._data Demo.rescaled_numpy !! "timestamp"
        = match timestamp with
          | None => None
          | Some z => if decide (z = 0) then None else Some (VInt z)
          end.
Proof.
  assert (ChannelData.rescale Demo.snapshot [Demo.linux; Demo.osx]
          = Ok Demo.rescaled) as Hr by (vm_compute; reflexivity).
  assert (ChannelData._groups Demo.rescaled !! "numpy" = Some Demo.rescaled_numpy)
    as Hg by (vm_compute; reflexivity).
  split; [exact Hr|]. split; [exact Hg|].
  exact (rescale_latest Demo.snapshot [Demo.linux; Demo.osx] Demo.rescaled
           "numpy" Demo.rescaled_numpy Hr Hg).
Defined.

Lemma dump_from_data_witness :
  ChannelData.from_data Demo.document = Ok Demo.parsed
  ∧ Demo.document !! "channeldata_version" = Some (VInt ChannelData.VERSION)
  ∧ dom Demo.document = {["channeldata_version"; "packages"; "subdirs"]}
  ∧ ∃ subdirs packages,
      Demo.document !! "subdirs" = Some (of_strs subdirs)
      ∧ Demo.document !! "packages" = Some (VDict packages)
      ∧ ChannelData.dump Demo.parsed
        = <["subdirs" := of_strs (sorted subdirs)]> Demo.document
      ∧ ChannelData.dump Demo.parsed !! "packages" = Some (VDict packages)
      ∧ ∀ name v, packages !! name = Some v →
          ∃ info, ChannelData._groups Demo.parsed !! name = Some info
                  ∧ VDict (ChannelGroupInfo.dump info) = v.
Proof.
  assert (ChannelData.from_data Demo.document = Ok Demo.parsed) as Hcd
    by (vm_compute; reflexivity).
  assert (Demo.document !! "channeldata_version" = Some (VInt ChannelData.VERSION))
    as Htag by (vm_compute; reflexivity).
  assert (dom Demo.document = {["channeldata_version"; "packages"; "subdirs"]})
    as Hdom by (vm_compute; reflexivity).
  split; [exact Hcd|]. split; [exact Htag|]. split; [exact Hdom|].
  exact (dump_from_data Demo.document Demo.parsed Hcd Htag Hdom).
Defined.

(** C4 as it is stated fails on a document with one more key: the
    document is accepted, and [dump] does not give the key back. *)
Lemma dump_from_data_extra_key :
  ChannelData.from_data Demo.annotated = Ok Demo.parsed
  ∧ Demo.annotated !! "channeldata_version" = Some (VInt ChannelData.VERSION)
  ∧ Demo.annotated !! "subdirs" = Some (of_strs ["osx-64"; "linux-64"])
  ∧ ChannelData.dump Demo.parsed
    ≠ <["subdirs" := of_strs (sorted ["osx-64"; "linux-64"])]> Demo.annotated.
Proof.
  split; [vm_compute; reflexivity|]. split; [vm_compute; reflexivity|].
  split; [vm_compute; reflexivity|].
  intros Heq. apply (f_equal (λ m : gmap string value, m !! "comment")) in Heq.
  vm_compute in Heq. discriminate Heq.
Qed.

Lemma rescale_drops_witness :
  ChannelData.rescale Demo.snapshot [Demo.bare] = Ok Demo.rescaled_bare
  ∧ "numpy" ∈ ChannelData.keys Demo.snapshot
  ∧ (∀ repo recs,
       repo ∈ [Demo.bare] → RepoData.groups repo !! "numpy" = Some recs →
       recs = [])
  ∧ ChannelData.contains Demo.rescaled_bare "numpy" = false
  ∧ ChannelData._groups Demo.rescaled_bare !! "numpy" = None
  ∧ ChannelData.getitem Demo.rescaled_bare "numpy" = Raise (KeyError "numpy").
Proof.
  assert (ChannelData.rescale Demo.snapshot [Demo.bare] = Ok Demo.rescaled_bare)
    as Hr by (vm_compute; reflexivity).
  assert ("numpy" ∈ ChannelData.keys Demo.snapshot) as Hname.
  { apply elem_of_dom. eexists. vm_compute. reflexivity. }
  assert (∀ repo recs,
            repo ∈ [Demo.bare] → RepoData.groups repo !! "numpy" = Some recs →
            recs = []) as Hnone.
  { intros repo recs ->%list_elem_of_singleton. vm_compute. by intros [= <-]. }
  split; [exact Hr|]. split; [exact Hname|]. split; [exact Hnone|].
  exact (rescale_drops Demo.snapshot [Demo.bare] Demo.rescaled_bare "numpy"
           Hr Hname Hnone).
Defined.



(** A repo that contains the name of a group and has no record for it is
    not such a listing: the group is dropped then, and the subdir of the
    repo is in the subdir list of the result all the same. *)
Example rescale_subdirs_of_dropped_group :
  ¬ repo_wf Demo.bare
  ∧ ChannelData.rescale Demo.snapshot [Demo.bare] = Ok Demo.rescaled_bare
  ∧ ChannelData.subdirs Demo.rescaled_bare = ["win-64"]
  ∧ ChannelData._groups Demo.rescaled_bare = ∅.
Proof.
  split; [|split; [vm_compute; reflexivity|done]].
  intros Hwf. by destruct (Hwf "numpy" [] (lookup_singleton_eq _ _)).
Qed.

Lemma from_data_validation_witness :
  Demo.document !! "channeldata_version" = Some (VInt 1)
  ∧ (ChannelData.from_data Demo.document = Raise InvalidChannel
     ↔ value_eq_int (VInt 1) ChannelData.VERSION = false)
  ∧ (value_eq_int (VInt 1) ChannelData.VERSION = true →
     ∀ subdirs (packages : gmap string (gmap string value)),
       Demo.document !! "subdirs" = Some (of_strs subdirs) →
       Demo.document !! "packages" = Some (VDict (VDict <$> packages)) →
       ∃ cd,
         ChannelData.from_data Demo.document = Ok cd
         ∧ ∀ name bag, packages !! name = Some bag →
             ∃ info,
               ChannelData._groups cd !! name = Some info
               ∧ ChannelGroupInfo.dump info = bag
               ∧ (bag !! "version" = None →
                  ChannelGroupInfo.version info = Raise (KeyError "version"))).
Proof.
  assert (Demo.document !! "channeldata_version" = Some (VInt 1)) as Htag
    by (vm_compute; reflexivity).
  split; [exact Htag|].
  exact (from_data_validation Demo.document (VInt 1) Htag).
Defined.

(** A document of another schema version is refused, whatever it holds
    under [packages]. *)
Example from_data_other_version :
  ChannelData.from_data
    (<["channeldata_version" := VInt 2]> (<["packages" := VNone]> Demo.document))
  = Raise InvalidChannel.
Proof. vm_compute. reflexivity. Qed.

(** The group [zlib] of the document has no [version]: it is parsed, and
    reading its version raises. *)
Example from_data_lazy :
  ChannelData.from_data Demo.document = Ok Demo.parsed
  ∧ (info ← ChannelData.getitem Demo.parsed "zlib"; ChannelGroupInfo.version info)
    = Raise (KeyError "version").
Proof. split; vm_compute; reflexivity. Qed.

Lemma keys_match_preserved_witness :
  keys_match Demo.parsed ∧ keys_match Demo.rescaled.
Proof.
  destruct (keys_match_preserved (H := Demo.hash) (K := string))
    as (Hparse & Hmerge & Hrescale).
  assert (keys_match Demo.snapshot) as Hsnapshot.
  { intros key info. unfold Demo.snapshot; simpl.
    by intros [<- <-]%lookup_singleton_Some. }
  split.
  - apply (Hparse Demo.document). vm_compute. reflexivity.
  - apply (Hrescale Demo.snapshot [Demo.linux; Demo.osx]); [exact Hsnapshot|].
    vm_compute. reflexivity.
Defined.
End examples.

(** * Further properties *)

(** ** Updates of a group *)

Section group_updates.
Context `{!PyHash}.

(** X1: [update_subdirs] keeps the name, sets [subdirs] to the given list
    in the order given, and leaves every other field, [version] and
    [timestamp] included, as it was. *)
Theorem update_subdirs_spec (g : ChannelGroupInfo.t) (subdirs : list string) :
  let g' := ChannelGroupInfo.update_subdirs g subdirs in
  ChannelGroupInfo.name g' = ChannelGroupInfo.name g
  ∧ ChannelGroupInfo._data g' !! "subdirs" = Some (of_strs subdirs)
  ∧ ChannelGroupInfo.version g' = ChannelGroupInfo.version g
  ∧ ChannelGroupInfo.timestamp g' = ChannelGroupInfo.timestamp g
  ∧ ∀ key, key ≠ "subdirs" →
      ChannelGroupInfo._data g' !! key = ChannelGroupInfo._data g !! key.
Proof.
  intros g'. subst g'.
  unfold ChannelGroupInfo.update_subdirs, ChannelGroupInfo.version,
    ChannelGroupInfo.timestamp, dict_getitem; simpl.
  split; [done|]. split; [apply lookup_insert_eq|].
  split; [by rewrite lookup_insert_ne|]. split; [by rewrite lookup_insert_ne|].
  intros key Hkey. by rewrite lookup_insert_ne.
Qed.

Lemma update_latest_lookup g v ts key :
  ChannelGroupInfo._data (ChannelGroupInfo.update_latest g v ts) !! key
  = if decide (key = "version") then Some (VStr v)
    else if decide (key = "timestamp") then latest_timestamp ts
    else ChannelGroupInfo._data g !! key.
Proof.
  destruct (decide (key = "version")) as [->|Hv]; [apply update_latest_version|].
  destruct (decide (key = "timestamp")) as [->|Ht];
    [apply update_latest_timestamp|].
  by apply update_latest_other.
Qed.

Lemma update_subdirs_lookup g subdirs key :
  ChannelGroupInfo._data (ChannelGroupInfo.update_subdirs g subdirs) !! key
  = if decide (key = "subdirs") then Some (of_strs subdirs)
    else ChannelGroupInfo._data g !! key.
Proof.
  unfold ChannelGroupInfo.update_subdirs; simpl.
  destruct (decide (key = "subdirs")) as [->|Hs];
    [apply lookup_insert_eq|by apply lookup_insert_ne].
Qed.

(** Two groups that [__init__] built are the same when they have the same
    name and the same fields. *)
Lemma init_ext name1 name2 (data1 data2 : gmap string value) :
  name1 = name2 → (∀ key, data1 !! key = data2 !! key) →
  ChannelGroupInfo.init name1 data1 = ChannelGroupInfo.init name2 data2.
Proof. intros -> Hdata. f_equal. by apply map_eq. Qed.

(** X2: the last update wins.  [update_latest] after [update_latest] is the
    second one alone, also when the first had set a timestamp and the
    second has none; [update_subdirs] after [update_subdirs] is the second
    one alone. *)
Theorem update_twice (g : ChannelGroupInfo.t) (v1 v2 : string) (t1 t2 : option Z)
    (s1 s2 : list string) :
  ChannelGroupInfo.update_latest (ChannelGroupInfo.update_latest g v1 t1) v2 t2
  = ChannelGroupInfo.update_latest g v2 t2
  ∧ ChannelGroupInfo.update_subdirs (ChannelGroupInfo.update_subdirs g s1) s2
    = ChannelGroupInfo.update_subdirs g s2.
Proof.
  split.
  - change (ChannelGroupInfo.init
              (ChannelGroupInfo.name (ChannelGroupInfo.update_latest g v1 t1))
              (ChannelGroupInfo._data
                 (ChannelGroupInfo.update_latest
                    (ChannelGroupInfo.update_latest g v1 t1) v2 t2))
            = ChannelGroupInfo.init (ChannelGroupInfo.name g)
                (ChannelGroupInfo._data (ChannelGroupInfo.update_latest g v2 t2))).
    apply init_ext; [done|]. intros key. rewrite !update_latest_lookup.
    by repeat case_decide.
  - change (ChannelGroupInfo.init
              (ChannelGroupInfo.name (ChannelGroupInfo.update_subdirs g s1))
              (ChannelGroupInfo._data
                 (ChannelGroupInfo.update_subdirs
                    (ChannelGroupInfo.update_subdirs g s1) s2))
            = ChannelGroupInfo.init (ChannelGroupInfo.name g)
                (ChannelGroupInfo._data (ChannelGroupInfo.update_subdirs g s2))).
    apply init_ext; [done|]. intros key. rewrite !update_subdirs_lookup.
    by repeat case_decide.
Qed.

(** X3: [update_subdirs] and [update_latest] commute: the order in which
    [rescale] chains them does not matter. *)
Theorem updates_commute (g : ChannelGroupInfo.t) (v : string) (t : option Z)
    (subdirs : list string) :
  ChannelGroupInfo.update_latest (ChannelGroupInfo.update_subdirs g subdirs) v t
  = ChannelGroupInfo.update_subdirs (ChannelGroupInfo.update_latest g v t) subdirs.
Proof.
  change (ChannelGroupInfo.init
            (ChannelGroupInfo.name (ChannelGroupInfo.update_subdirs g subdirs))
            (ChannelGroupInfo._data
               (ChannelGroupInfo.update_latest
                  (ChannelGroupInfo.update_subdirs g subdirs) v t))
          = ChannelGroupInfo.init
              (ChannelGroupInfo.name (ChannelGroupInfo.update_latest g v t))
              (ChannelGroupInfo._data
                 (ChannelGroupInfo.update_subdirs
                    (ChannelGroupInfo.update_latest g v t) subdirs))).
  apply init_ext; [done|]. intros key.
  rewrite update_latest_lookup, !update_subdirs_lookup, update_latest_lookup.
  repeat case_decide; by simplify_eq.
Qed.

(** X4: [==] holds of two constructed groups exactly when their names are
    the same, so groups of different names are never equal; and a group
    updated by [update_latest] or [update_subdirs] is still equal to the
    group it comes from and has its hash. *)
Theorem eq_iff_name (name1 name2 : string) (data1 data2 : gmap string value)
    (v : string) (t : option Z) (subdirs : list string) :
  let a := ChannelGroupInfo.init name1 data1 in
  let b := ChannelGroupInfo.init name2 data2 in
  (ChannelGroupInfo.eq a b = true ↔ name1 = name2)
  ∧ ChannelGroupInfo.eq (ChannelGroupInfo.update_latest a v t) a = true
  ∧ ChannelGroupInfo.hash (ChannelGroupInfo.update_latest a v t)
    = ChannelGroupInfo.hash a
  ∧ ChannelGroupInfo.eq (ChannelGroupInfo.update_subdirs a subdirs) a = true
  ∧ ChannelGroupInfo.hash (ChannelGroupInfo.update_subdirs a subdirs)
    = ChannelGroupInfo.hash a.
Proof.
  simpl. split; [apply String.eqb_eq|].
  unfold ChannelGroupInfo.eq, ChannelGroupInfo.hash; simpl.
  by rewrite String.eqb_refl.
Qed.
End group_updates.

(** ** Documents in and out *)

Section documents.
Context `{!PyHash}.

(** X5: the keys of a document are read in a fixed order, and the first one
    that is missing is the one [KeyError] names: the tag before anything
    else, then, once the tag is accepted, [subdirs], then [packages]. *)
Theorem from_data_missing_key (d : gmap string value) :
  (d !! "channeldata_version" = None →
   ChannelData.from_data d = Raise (KeyError "channeldata_version"))
  ∧ (∀ tag,
       d !! "channeldata_version" = Some tag →
       value_eq_int tag ChannelData.VERSION = true →
       d !! "subdirs" = None →
       ChannelData.from_data d = Raise (KeyError "subdirs"))
  ∧ (∀ tag,
       d !! "channeldata_version" = Some tag →
       value_eq_int tag ChannelData.VERSION = true →
       is_Some (d !! "subdirs") →
       d !! "packages" = None →
       ChannelData.from_data d = Raise (KeyError "packages")).
Proof.
  unfold ChannelData.from_data, dict_getitem. split; [|split].
  - by intros ->.
  - intros tag -> Htag ->. simpl. by rewrite Htag.
  - intros tag -> Htag [sv ->] ->. simpl. by rewrite Htag.
Qed.

(** X6: a parsed snapshot has one group per entry of [packages], under the
    key of the entry, and the list of [subdirs] as the document has it,
    neither sorted nor freed of duplicates. *)
Theorem from_data_keys (d : gmap string value) (cd : ChannelData.t) :
  ChannelData.from_data d = Ok cd →
  ∃ packages,
    d !! "packages" = Some (VDict packages)
    ∧ ChannelData.keys cd = dom packages
    ∧ ChannelData.len cd = size packages
    ∧ d !! "subdirs" = Some (of_strs (ChannelData.subdirs cd)).
Proof.
  intros Hcd.
  destruct (from_data_Ok _ _ Hcd)
    as (tag & subdirs & packages & _ & _ & Hsub & Hpk & <- & Hin & Hout).
  exists packages. split; [done|].
  assert (dom (ChannelData._groups cd) = dom packages) as Hdom.
  { apply set_eq. intros name. rewrite !elem_of_dom. split.
    - intros [g Hg]. destruct (packages !! name) as [v|] eqn:Hv; [by eexists|].
      rewrite (Hout _ Hv) in Hg. done.
    - intros [v Hv]. destruct (Hin _ _ Hv) as (bag & _ & Hg). by eexists. }
  split; [done|]. split; [|done].
  unfold ChannelData.len. by rewrite <- !size_dom, Hdom.
Qed.

Lemma dump_lookup_tag (cd : ChannelData.t) :
  ChannelData.dump cd !! "channeldata_version" = Some (VInt ChannelData.VERSION).
Proof.
  unfold ChannelData.dump. rewrite !lookup_insert_ne by done.
  apply lookup_insert_eq.
Qed.

Lemma dump_lookup_packages (cd : ChannelData.t) :
  ChannelData.dump cd !! "packages"
  = Some (VDict ((λ group, VDict (ChannelGroupInfo.dump group))
                   <$> ChannelData._groups cd)).
Proof.
  unfold ChannelData.dump. rewrite lookup_insert_ne by done.
  apply lookup_insert_eq.
Qed.

Lemma dump_lookup_subdirs (cd : ChannelData.t) :
  ChannelData.dump cd !! "subdirs"
  = Some (of_strs (sorted (ChannelData.subdirs cd))).
Proof. unfold ChannelData.dump. apply lookup_insert_eq. Qed.

(** X7: [dump] writes the three keys of the schema and no other, the tag
    [1], and for [subdirs] the list of the snapshot in sorted order with
    its duplicates kept. *)
Theorem dump_shape (cd : ChannelData.t) :
  dom (ChannelData.dump cd) = {["channeldata_version"; "packages"; "subdirs"]}
  ∧ ChannelData.dump cd !! "channeldata_version" = Some (VInt 1)
  ∧ ∃ subdirs,
      ChannelData.dump cd !! "subdirs" = Some (of_strs subdirs)
      ∧ StronglySorted String.le subdirs
      ∧ subdirs ≡ₚ ChannelData.subdirs cd.
Proof.
  split; [|split; [apply dump_lookup_tag|]].
  - unfold ChannelData.dump. rewrite !dom_insert_L, dom_empty_L.
    apply set_eq. intros key. rewrite !elem_of_union, !elem_of_singleton.
    rewrite elem_of_empty. tauto.
  - exists (sorted (ChannelData.subdirs cd)).
    split; [apply dump_lookup_subdirs|].
    split; [apply sorted_StronglySorted|apply sorted_Permutation].
Qed.

(** What [from_data] makes of a dumped snapshot. *)
Lemma from_data_dump (cd : ChannelData.t) :
  ChannelData.from_data (ChannelData.dump cd)
  = Ok (ChannelData.init (sorted (ChannelData.subdirs cd))
          (map_imap (λ key info,
                       Some (ChannelGroupInfo.init key (ChannelGroupInfo._data info)))
                    (ChannelData._groups cd))).
Proof.
  destruct (from_data_total (ChannelData.dump cd) (VInt ChannelData.VERSION)
              (sorted (ChannelData.subdirs cd))
              (ChannelGroupInfo.dump <$> ChannelData._groups cd)) as [cd' Hcd'].
  { apply dump_lookup_tag. }
  { done. }
  { apply dump_lookup_subdirs. }
  { rewrite dump_lookup_packages. by rewrite <- map_fmap_compose. }
  rewrite Hcd'. f_equal.
  destruct (from_data_Ok _ _ Hcd')
    as (tag & subdirs & packages & _ & _ & Hsub & Hpk & Hsubdirs & Hin & Hout).
  rewrite dump_lookup_subdirs in Hsub. rewrite dump_lookup_packages in Hpk.
  assert (sorted (ChannelData.subdirs cd) = subdirs) as Hsorted
    by (apply of_strs_inj; congruence).
  clear Hsub. injection Hpk as <-.
  destruct cd' as [subdirs' groups']. simpl in *. subst subdirs' subdirs.
  unfold ChannelData.init. f_equal.
  apply map_eq. intros key. rewrite map_lookup_imap.
  destruct (ChannelData._groups cd !! key) as [info|] eqn:Hinfo; simpl.
  - destruct (Hin key (VDict (ChannelGroupInfo.dump info))) as (bag & [= <-] & ->);
      [by rewrite lookup_fmap, Hinfo|done].
  - apply Hout. by rewrite lookup_fmap, Hinfo.
Qed.

(** X8: what [dump] writes is always accepted by [from_data]: the snapshot
    read back has the same keys, under each key a group of that name with
    the field bag of the group dumped, and the sorted list of subdirs. *)
Theorem dump_parses (cd : ChannelData.t) :
  ∃ cd',
    ChannelData.from_data (ChannelData.dump cd) = Ok cd'
    ∧ ChannelData.subdirs cd' = sorted (ChannelData.subdirs cd)
    ∧ ChannelData.keys cd' = ChannelData.keys cd
    ∧ ∀ key info,
        ChannelData._groups cd !! key = Some info →
        ChannelData._groups cd' !! key
        = Some (ChannelGroupInfo.init key (ChannelGroupInfo.dump info)).
Proof.
  eexists. split; [apply from_data_dump|]. split; [done|]. split.
  - unfold ChannelData.keys; simpl. apply set_eq. intros key.
    rewrite !elem_of_dom, map_lookup_imap.
    destruct (ChannelData._groups cd !! key); simpl; split; intros [? ?]; by eexists.
  - intros key info Hinfo. simpl. by rewrite map_lookup_imap, Hinfo.
Qed.

(** X9: on a snapshot whose groups are as [__init__] builds them under
    their key, [from_data] undoes [dump] up to the order of the subdirs:
    the snapshot read back is the snapshot dumped, with its subdirs
    sorted. *)
Theorem from_data_dump_id (cd : ChannelData.t) :
  groups_constructed cd →
  ChannelData.from_data (ChannelData.dump cd)
  = Ok (ChannelData.init (sorted (ChannelData.subdirs cd)) (ChannelData._groups cd)).
Proof.
  intros Hcd. rewrite from_data_dump. do 2 f_equal.
  apply map_eq. intros key. rewrite map_lookup_imap.
  destruct (ChannelData._groups cd !! key) as [info|] eqn:Hinfo; simpl; [|done].
  f_equal. symmetry. by apply Hcd.
Qed.
End documents.

(** ** Groups under their keys *)

Section constructed.
Context `{!PyHash} `{!VersionOrder K}.

Lemma groups_constructed_keys_match cd : groups_constructed cd → keys_match cd.
Proof. intros Hcd key info Hinfo. by rewrite (Hcd _ _ Hinfo). Qed.

(** X10: in a snapshot that [from_data] returns, every group is as
    [__init__] builds it under its key, so that its name, the key of its
    equality and its hash are those of the key; [merge] keeps that, and
    [rescale] gives it to its result as soon as the keys of its argument
    are the names of their groups. *)
Theorem groups_constructed_preserved :
  (∀ d cd, ChannelData.from_data d = Ok cd → groups_constructed cd)
  ∧ (∀ A B R,
       groups_constructed A → groups_constructed B →
       ChannelData.merge A B = Ok R → groups_constructed R)
  ∧ (∀ cd (repos : list RepoData.t) r,
       keys_match cd → ChannelData.rescale cd repos = Ok r →
       groups_constructed r).
Proof.
  split; [|split].
  - intros d cd Hcd key info Hinfo.
    destruct (from_data_Ok _ _ Hcd)
      as (_ & _ & packages & _ & _ & _ & _ & _ & Hin & Hout).
    destruct (packages !! key) as [v|] eqn:Hv.
    + destruct (Hin _ _ Hv) as (bag & _ & Hg). rewrite Hg in Hinfo.
      by injection Hinfo as <-.
    + rewrite (Hout _ Hv) in Hinfo. done.
  - intros A B R HA HB. rewrite merge_closed_form. intros [= <-] key info.
    simpl. intros [Hinfo|[_ Hinfo]]%lookup_union_Some_raw; eauto.
  - intros cd repos r Hcd Hr key g Hg.
    destruct (rescale_group_inv _ _ _ _ _ Hr Hg)
      as (info & order & timestamp & Hinfo & _ & _ & ->).
    unfold ChannelGroupInfo.update_latest at 1.
    rewrite update_subdirs_name, (Hcd _ _ Hinfo). done.
Qed.
End constructed.

(** ** [merge], again *)

Lemma list_to_set_sorted_set (X : gset string) : list_to_set (sorted_set X) = X.
Proof.
  apply set_eq. intros s. by rewrite elem_of_list_to_set, elem_of_sorted_set.
Qed.

Section merge_algebra.
Context (A B C : ChannelData.t).

(** X11: [merge] is associative: merging [A] with [B] and the result with
    [C] gives the snapshot that merging [A] with the merge of [B] and [C]
    gives. *)
Theorem merge_assoc :
  (AB ← ChannelData.merge A B; ChannelData.merge AB C)
  = (BC ← ChannelData.merge B C; ChannelData.merge A BC).
Proof.
  rewrite (merge_closed_form A B), (merge_closed_form B C).
  cbn [mbind result_bind]. rewrite !merge_closed_form.
  unfold ChannelData.init, ChannelData.subdirs; simpl.
  rewrite !list_to_set_sorted_set.
  by rewrite (assoc_L (∪) (list_to_set (ChannelData._subdirs A))),
    (assoc_L (∪) (ChannelData._groups A)).
Qed.

(** X12: [merge(A, B)] and [merge(B, A)] have the same subdirs and the same
    names; they are the same snapshot exactly when [A] and [B] have the
    same group under every name they share. *)
Theorem merge_comm_iff :
  (∃ R R',
     ChannelData.merge A B = Ok R ∧ ChannelData.merge B A = Ok R'
     ∧ ChannelData.subdirs R = ChannelData.subdirs R'
     ∧ ChannelData.keys R = ChannelData.keys R')
  ∧ (ChannelData.merge A B = ChannelData.merge B A
     ↔ ∀ name a b,
         ChannelData._groups A !! name = Some a →
         ChannelData._groups B !! name = Some b → a = b).
Proof.
  rewrite (merge_closed_form A B), (merge_closed_form B A).
  assert (list_to_set (ChannelData.subdirs A) ∪ list_to_set (ChannelData.subdirs B)
          =@{gset string}
          list_to_set (ChannelData.subdirs B) ∪ list_to_set (ChannelData.subdirs A))
    as Hsub by apply (comm_L (∪)).
  split.
  - do 2 eexists. split; [done|]. split; [done|]. simpl. split.
    + by rewrite Hsub.
    + unfold ChannelData.keys; simpl. rewrite !dom_union_L. apply (comm_L (∪)).
  - rewrite Hsub. split.
    + intros [= Hgroups] name a b Ha Hb.
      assert ((ChannelData._groups A ∪ ChannelData._groups B) !! name = Some a)
        as Hab by (by apply lookup_union_Some_l).
      rewrite Hgroups in Hab.
      rewrite (lookup_union_Some_l _ _ _ _ Hb) in Hab. congruence.
    + intros Hagree. do 2 f_equal. apply map_eq. intros name.
      destruct (ChannelData._groups A !! name) as [a|] eqn:Ha,
               (ChannelData._groups B !! name) as [b|] eqn:Hb.
      * rewrite (lookup_union_Some_l _ _ _ _ Ha), (lookup_union_Some_l _ _ _ _ Hb).
        f_equal. by eapply Hagree.
      * rewrite (lookup_union_Some_l _ _ _ _ Ha), (lookup_union_r _ _ _ Hb). done.
      * rewrite (lookup_union_r _ _ _ Ha), (lookup_union_Some_l _ _ _ _ Hb). done.
      * rewrite (lookup_union_r _ _ _ Ha), (lookup_union_r _ _ _ Hb). congruence.
Qed.

(** X13: merging a snapshot with itself changes its groups in nothing and
    leaves its subdirs sorted and without duplicates; and the result of a
    merge takes nothing more from either snapshot it was merged from. *)
Theorem merge_absorbs :
  ChannelData.merge A A
  = Ok (ChannelData.init
          (sorted_set (list_to_set (ChannelData.subdirs A)))
          (ChannelData._groups A))
  ∧ ∀ R, ChannelData.merge A B = Ok R →
      ChannelData.merge R R = Ok R
      ∧ ChannelData.merge R B = Ok R
      ∧ ChannelData.merge A R = Ok R.
Proof.
  split.
  - rewrite merge_closed_form. by rewrite (idemp_L (∪)), (idemp_L (∪)).
  - intros R. rewrite (merge_closed_form A B). intros [= <-].
    rewrite !merge_closed_form. unfold ChannelData.init, ChannelData.subdirs; simpl.
    rewrite !list_to_set_sorted_set.
    assert (∀ X Y : gset string, X ∪ Y ∪ Y = X ∪ Y) as Hr
      by (intros; by rewrite <- (assoc_L (∪)), (idemp_L (∪))).
    assert (∀ X Y : gset string, X ∪ (X ∪ Y) = X ∪ Y) as Hl
      by (intros; by rewrite (assoc_L (∪)), (idemp_L (∪))).
    rewrite (idemp_L (∪)), (idemp_L (∪)), Hr, Hl.
    rewrite <- (assoc_L (∪) (ChannelData._groups A)), (idemp_L (∪) (ChannelData._groups B)).
    rewrite (assoc_L (∪) (ChannelData._groups A)), (idemp_L (∪) (ChannelData._groups A)).
    done.
Qed.
End merge_algebra.

(** ** The mapping protocol *)

(** X14: membership, lookup, iteration and length of a snapshot agree:
    [snapshot[key]] returns a group exactly when [key in snapshot], and
    raises [KeyError] for that key otherwise; iterating yields every key
    once, and as many keys as [len] counts. *)
Theorem mapping_protocol (cd : ChannelData.t) (key : string) :
  (ChannelData.contains cd key = true ↔ ∃ info, ChannelData.getitem cd key = Ok info)
  ∧ (ChannelData.contains cd key = false
     ↔ ChannelData.getitem cd key = Raise (KeyError key))
  ∧ (key ∈ ChannelData.iter cd ↔ ChannelData.contains cd key = true)
  ∧ NoDup (ChannelData.iter cd)
  ∧ length (ChannelData.iter cd) = ChannelData.len cd.
Proof.
  unfold ChannelData.contains, ChannelData.getitem, dict_getitem,
    ChannelData.iter, ChannelData.len.
  rewrite bool_decide_eq_true, bool_decide_eq_false, elem_of_dom.
  split; [|split; [|split; [|split]]].
  - destruct (ChannelData._groups cd !! key) as [info|].
    + split; intros _; by eexists.
    + split; [by intros [? ?]|by intros [? [=]]].
  - destruct (ChannelData._groups cd !! key) as [info|].
    + split; [|done]. intros Hnot. destruct Hnot. by eexists.
    + split; [done|]. by intros _ [? ?].
  - rewrite list_elem_of_fmap. split.
    + intros ([k info] & -> & Hitem%elem_of_map_to_list). by eexists.
    + intros [info Hinfo]. exists (key, info). split; [done|].
      by apply elem_of_map_to_list.
  - apply NoDup_fst_map_to_list.
  - by rewrite length_fmap, length_map_to_list.
Qed.

(** ** [rescale], again *)

Section rescale_more.
Context `{!PyHash} `{!VersionOrder K}.

Lemma pair_gt_Raise (a b : K * option Z) e : pair_gt a b = Raise e → e = TypeError.
Proof.
  destruct a as [ka ta], b as [kb tb]. unfold pair_gt; simpl.
  destruct (order_eqb ka kb); simpl; [|done].
  destruct ta as [x|], tb as [y|]; simpl.
  all: try (by intros [= <-]).
  by destruct (x =? y); simpl.
Qed.

Lemma py_max_Raise (items : list (K * option Z)) e :
  items ≠ [] → py_max items = Raise e → e = TypeError.
Proof.
  destruct items as [|first rest]; [done|]. intros _. simpl.
  revert first. induction rest as [|item rest IH]; intros first; simpl; [done|].
  destruct (pair_gt item first) as [gt|e'] eqn:Hgt; simpl.
  - apply IH.
  - intros [= <-]. by eapply pair_gt_Raise.
Qed.

Lemma rescaled_group_Raise name info (repos : list RepoData.t) e :
  rescaled_group name info repos = Raise e → e = TypeError.
Proof.
  unfold rescaled_group.
  destruct (records name repos) as [|package packages]; [done|].
  destruct (py_max _) as [[order timestamp]|e'] eqn:Hmax; [done|].
  intros [= <-]. eapply py_max_Raise; [|exact Hmax].
  unfold candidates. by rewrite fmap_cons.
Qed.

(** X15: [rescale] returns a snapshot or raises [TypeError], and nothing
    else: [max] is never handed an empty sequence, so that [ValueError]
    cannot come out of it. *)
Theorem rescale_Ok_or_TypeError (cd : ChannelData.t) (repos : list RepoData.t) :
  (∃ r, ChannelData.rescale cd repos = Ok r)
  ∨ ChannelData.rescale cd repos = Raise TypeError.
Proof.
  unfold ChannelData.rescale.
  generalize (map_to_list (ChannelData._groups cd)).
  generalize (∅ : gset string, ∅ : gmap string ChannelGroupInfo.t).
  intros st items. revert st.
  induction items as [|[name info] items IH]; intros [channel_subdirs groups].
  - left. by eexists.
  - cbn [foldM]. rewrite rescale_step_eq.
    destruct (rescaled_group name info repos) as [o|e] eqn:Ho.
    + cbn [mbind result_bind]. apply IH.
    + right. by rewrite (rescaled_group_Raise _ _ _ _ Ho).
Qed.

Lemma rescale_keys_inv cd (repos : list RepoData.t) r name :
  ChannelData.rescale cd repos = Ok r →
  name ∈ ChannelData.keys r →
  name ∈ ChannelData.keys cd ∧ records name repos ≠ [].
Proof.
  intros Hr. unfold ChannelData.keys. rewrite !elem_of_dom. intros [g Hg].
  destruct (rescale_group_inv _ _ _ _ _ Hr Hg)
    as (info & _ & _ & Hinfo & Hrecords & _).
  split; [by eexists|done].
Qed.

(** X16: [rescale] never adds a group: the names of its result are the
    names of the snapshot for which some repo has a record, so the result
    has at most as many groups as the snapshot. *)
Theorem rescale_keys cd (repos : list RepoData.t) r :
  ChannelData.rescale cd repos = Ok r →
  (∀ name, name ∈ ChannelData.keys r
           ↔ name ∈ ChannelData.keys cd ∧ records name repos ≠ [])
  ∧ ChannelData.keys r ⊆ ChannelData.keys cd
  ∧ (ChannelData.len r ≤ ChannelData.len cd)%nat.
Proof.
  intros Hr.
  assert (∀ name, name ∈ ChannelData.keys r
                  ↔ name ∈ ChannelData.keys cd ∧ records name repos ≠ [])
    as Hkeys.
  { intros name. split; [by apply rescale_keys_inv|].
    unfold ChannelData.keys. rewrite !elem_of_dom.
    intros [[info Hinfo] Hrecords]. by eapply rescale_group_kept. }
  assert (ChannelData.keys r ⊆ ChannelData.keys cd) as Hsub.
  { intros name Hname. by apply Hkeys in Hname as [? _]. }
  split; [done|]. split; [done|].
  unfold ChannelData.len. rewrite <- !size_dom. by apply subseteq_size.
Qed.

(** X17: with no repo to look into, [rescale] drops every group and knows
    no subdir; and the empty snapshot stays empty whatever the repos. *)
Theorem rescale_nothing (cd : ChannelData.t) (subdirs : list string)
    (repos : list RepoData.t) :
  ChannelData.rescale cd [] = Ok (ChannelData.init [] ∅)
  ∧ ChannelData.rescale (ChannelData.init subdirs ∅) repos
    = Ok (ChannelData.init [] ∅).
Proof.
  split.
  - destruct (rescale_total [] cd) as [r Hr]; [intros; by eexists|].
    rewrite Hr. f_equal.
    destruct (rescale_Ok _ _ _ Hr) as (_ & Hsub & Hin & Hout).
    destruct r as [subdirs' groups]. unfold ChannelData.init. simpl in *. f_equal.
    + destruct subdirs' as [|s subdirs']; [done|].
      destruct (proj1 (Hsub s)) as (name & _ & Hs); [left|].
      unfold containing in Hs. rewrite filter_nil in Hs. simpl in Hs.
      by apply elem_of_empty in Hs.
    + apply map_eq. intros name. rewrite lookup_empty.
      destruct (ChannelData._groups cd !! name) as [info|] eqn:Hinfo.
      * specialize (Hin _ _ Hinfo). unfold rescaled_group in Hin. simpl in Hin.
        by injection Hin.
      * by apply Hout.
  - unfold ChannelData.rescale; simpl. rewrite map_to_list_empty. simpl.
    by rewrite elements_empty.
Qed.

(** X18: a group that survives [rescale] keeps its name and every field
    other than [version], [timestamp] and [subdirs]. *)
Theorem rescale_keeps_fields cd (repos : list RepoData.t) r name g :
  ChannelData.rescale cd repos = Ok r →
  ChannelData._groups r !! name = Some g →
  ∃ info,
    ChannelData._groups cd !! name = Some info
    ∧ ChannelGroupInfo.name g = ChannelGroupInfo.name info
    ∧ ∀ key, key ≠ "version" → key ≠ "timestamp" → key ≠ "subdirs" →
        ChannelGroupInfo._data g !! key = ChannelGroupInfo._data info !! key.
Proof.
  intros Hr Hg.
  destruct (rescale_group_inv _ _ _ _ _ Hr Hg)
    as (info & order & timestamp & Hinfo & _ & _ & ->).
  exists info. split; [done|]. split; [done|].
  intros key Hv Ht Hs. rewrite update_latest_other by done.
  unfold ChannelGroupInfo.update_subdirs; simpl. by rewrite lookup_insert_ne.
Qed.

Lemma update_latest_ext a b v t :
  ChannelGroupInfo.name a = ChannelGroupInfo.name b →
  (∀ key, key ≠ "version" → key ≠ "timestamp" →
     ChannelGroupInfo._data a !! key = ChannelGroupInfo._data b !! key) →
  ChannelGroupInfo.update_latest a v t = ChannelGroupInfo.update_latest b v t.
Proof.
  intros Hname Hdata.
  change (ChannelGroupInfo.init (ChannelGroupInfo.name a)
            (ChannelGroupInfo._data (ChannelGroupInfo.update_latest a v t))
          = ChannelGroupInfo.init (ChannelGroupInfo.name b)
              (ChannelGroupInfo._data (ChannelGroupInfo.update_latest b v t))).
  apply init_ext; [done|]. intros key. rewrite !update_latest_lookup.
  repeat case_decide; try done. by apply Hdata.
Qed.

(** X19: [rescale] against the same repos a second time returns, and
    returns the groups of the first time; its subdirs are among those of
    the first time. *)
Theorem rescale_twice cd (repos : list RepoData.t) r :
  ChannelData.rescale cd repos = Ok r →
  ∃ r',
    ChannelData.rescale r repos = Ok r'
    ∧ ChannelData._groups r' = ChannelData._groups r
    ∧ ∀ s, s ∈ ChannelData.subdirs r' → s ∈ ChannelData.subdirs r.
Proof.
  intros Hr.
  assert (∀ name g, ChannelData._groups r !! name = Some g →
            rescaled_group name g repos = Ok (Some g)) as Hfix.
  { intros name g Hg.
    destruct (rescale_group_inv _ _ _ _ _ Hr Hg)
      as (info & order & timestamp & _ & Hrecords & Hmax & ->).
    unfold rescaled_group.
    destruct (records name repos) as [|package packages] eqn:Hrecs; [done|].
    rewrite Hmax. cbn [mbind result_bind]. do 2 f_equal.
    apply update_latest_ext; [done|]. intros key Hv Ht.
    rewrite !update_subdirs_lookup. case_decide; [done|].
    by rewrite update_latest_other, update_subdirs_lookup, decide_False. }
  destruct (rescale_total repos r) as [r' Hr'].
  { intros name g Hg. rewrite (Hfix _ _ Hg). by eexists. }
  exists r'. split; [done|].
  destruct (rescale_Ok _ _ _ Hr') as (_ & Hsub' & Hin' & Hout').
  destruct (rescale_Ok _ _ _ Hr) as (_ & Hsub & _ & _).
  split.
  - apply map_eq. intros name.
    destruct (ChannelData._groups r !! name) as [g|] eqn:Hg.
    + specialize (Hin' _ _ Hg). rewrite (Hfix _ _ Hg) in Hin'. by injection Hin'.
    + by apply Hout'.
  - intros s. unfold ChannelData.subdirs. rewrite Hsub', Hsub.
    intros (name & Hname & Hs). exists name. split; [|done].
    by apply (rescale_keys_inv _ _ _ _ Hr) in Hname as [? _].
Qed.
End rescale_more.

(** * The further properties at work *)

Section more_examples.
Local Existing Instances Demo.hash Demo.order.

Lemma demo_parsed_constructed : groups_constructed Demo.parsed.
Proof.
  intros key info. unfold Demo.parsed; simpl.
  intros [[<- <-]|[_ [<- <-]%lookup_singleton_Some]]%lookup_insert_Some; done.
Qed.

Lemma demo_candidates_timestamped name x :
  x ∈ candidates (records name [Demo.linux; Demo.osx]) → is_Some x.2.
Proof.
  intros (rec & -> & Hrec)%list_elem_of_fmap.
  apply elem_of_records in Hrec as (repo & recs & Hrepo & Hrecs & Hin).
  apply elem_of_cons in Hrepo as [->|Hrepo];
    [|apply list_elem_of_singleton in Hrepo as ->].
  all: simpl in Hrecs; apply lookup_singleton_Some in Hrecs as [_ <-].
  all: apply list_elem_of_singleton in Hin as ->; by eexists.
Qed.

Lemma from_data_keys_witness :
  ChannelData.from_data Demo.document = Ok Demo.parsed
  ∧ ∃ packages,
      Demo.document !! "packages" = Some (VDict packages)
      ∧ ChannelData.keys Demo.parsed = dom packages
      ∧ ChannelData.len Demo.parsed = size packages
      ∧ Demo.document !! "subdirs" = Some (of_strs (ChannelData.subdirs Demo.parsed)).
Proof.
  assert (ChannelData.from_data Demo.document = Ok Demo.parsed) as Hcd
    by (vm_compute; reflexivity).
  split; [exact Hcd|]. exact (from_data_keys Demo.document Demo.parsed Hcd).
Defined.

Lemma from_data_dump_id_witness :
  groups_constructed Demo.parsed
  ∧ ChannelData.from_data (ChannelData.dump Demo.parsed)
    = Ok (ChannelData.init (sorted (ChannelData.subdirs Demo.parsed))
            (ChannelData._groups Demo.parsed)).
Proof.
  split; [exact demo_parsed_constructed|].
  exact (from_data_dump_id Demo.parsed demo_parsed_constructed).
Defined.

Lemma rescale_keys_witness :
  ChannelData.rescale Demo.snapshot [Demo.linux; Demo.osx] = Ok Demo.rescaled
  ∧ (∀ name, name ∈ ChannelData.keys Demo.rescaled
             ↔ name ∈ ChannelData.keys Demo.snapshot
               ∧ records name [Demo.linux; Demo.osx] ≠ [])
  ∧ ChannelData.keys Demo.rescaled ⊆ ChannelData.keys Demo.snapshot
  ∧ (ChannelData.len Demo.rescaled ≤ ChannelData.len Demo.snapshot)%nat.
Proof.
  assert (ChannelData.rescale Demo.snapshot [Demo.linux; Demo.osx]
          = Ok Demo.rescaled) as Hr by (vm_compute; reflexivity).
  split; [exact Hr|].
  exact (rescale_keys Demo.snapshot [Demo.linux; Demo.osx] Demo.rescaled Hr).
Defined.

Lemma rescale_keeps_fields_witness :
  ChannelData.rescale Demo.snapshot [Demo.linux; Demo.osx] = Ok Demo.rescaled
  ∧ ChannelData._groups Demo.rescaled !! "numpy" = Some Demo.rescaled_numpy
  ∧ ∃ info,
      ChannelData._groups Demo.snapshot !! "numpy" = Some info
      ∧ ChannelGroupInfo.name Demo.rescaled_numpy = ChannelGroupInfo.name info
      ∧ ∀ key, key ≠ "version" → key ≠ "timestamp" → key ≠ "subdirs" →
          ChannelGroupInfo._data Demo.rescaled_numpy !! key
          = ChannelGroupInfo._data info !! key.
Proof.
  assert (ChannelData.rescale Demo.snapshot [Demo.linux; Demo.osx]
          = Ok Demo.rescaled) as Hr by (vm_compute; reflexivity).
  assert (ChannelData._groups Demo.rescaled !! "numpy" = Some Demo.rescaled_numpy)
    as Hg by (vm_compute; reflexivity).
  split; [exact Hr|]. split; [exact Hg|].
  exact (rescale_keeps_fields Demo.snapshot [Demo.linux; Demo.osx] Demo.rescaled
           "numpy" Demo.rescaled_numpy Hr Hg).
Defined.

Lemma rescale_twice_witness :
  ChannelData.rescale Demo.snapshot [Demo.linux; Demo.osx] = Ok Demo.rescaled
  ∧ ∃ r',
      ChannelData.rescale Demo.rescaled [Demo.linux; Demo.osx] = Ok r'
      ∧ ChannelData._groups r' = ChannelData._groups Demo.rescaled
      ∧ ∀ s, s ∈ ChannelData.subdirs r' → s ∈ ChannelData.subdirs Demo.rescaled.
Proof.
  assert (ChannelData.rescale Demo.snapshot [Demo.linux; Demo.osx]
          = Ok Demo.rescaled) as Hr by (vm_compute; reflexivity).
  split; [exact Hr|].
  exact (rescale_twice Demo.snapshot [Demo.linux; Demo.osx] Demo.rescaled Hr).
Defined.

Lemma rescale_winner_greatest_witness :
  VersionOrderLaws string
  ∧ ChannelData.rescale Demo.snapshot [Demo.linux; Demo.osx] = Ok Demo.rescaled
  ∧ ChannelData._groups Demo.rescaled !! "numpy" = Some Demo.rescaled_numpy
  ∧ ∃ winner,
      winner ∈ records "numpy" [Demo.linux; Demo.osx]
      ∧ ChannelGroupInfo._data Demo.rescaled_numpy !! "version"
        = Some (VStr (order_str (create_order (PackageRecord.version winner))))
      ∧ ChannelGroupInfo._data Demo.rescaled_numpy !! "timestamp"
        = latest_timestamp (PackageRecord.timestamp winner)
      ∧ ∀ rec, rec ∈ records "numpy" [Demo.linux; Demo.osx] →
          order_ltb (create_order (PackageRecord.version winner))
                    (create_order (PackageRecord.version rec)) = false
          ∧ (order_eqb (create_order (PackageRecord.version rec))
                       (create_order (PackageRecord.version winner)) = true →
             (PackageRecord.timestamp rec = None
              ∧ PackageRecord.timestamp winner = None)
             ∨ ∃ t tw,
                 PackageRecord.timestamp rec = Some t
                 ∧ PackageRecord.timestamp winner = Some tw
                 ∧ t ≤ tw).
Proof.
  assert (ChannelData.rescale Demo.snapshot [Demo.linux; Demo.osx]
          = Ok Demo.rescaled) as Hr by (vm_compute; reflexivity).
  assert (ChannelData._groups Demo.rescaled !! "numpy" = Some Demo.rescaled_numpy)
    as Hg by (vm_compute; reflexivity).
  split; [exact demo_order_laws|]. split; [exact Hr|]. split; [exact Hg|].
  exact (rescale_winner_greatest (VersionOrderLaws0 := demo_order_laws)
           Demo.snapshot [Demo.linux; Demo.osx] Demo.rescaled
           "numpy" Demo.rescaled_numpy Hr Hg).
Defined.

Lemma rescale_returns_witness :
  (∀ name, name ∈ ChannelData.keys Demo.snapshot →
     ties_comparable (candidates (records name [Demo.linux; Demo.osx])))
  ∧ ∃ r, ChannelData.rescale Demo.snapshot [Demo.linux; Demo.osx] = Ok r.
Proof.
  assert (∀ name, name ∈ ChannelData.keys Demo.snapshot →
            ties_comparable (candidates (records name [Demo.linux; Demo.osx])))
    as Hties.
  { intros name _ a b Ha Hb _.
    split; intros _; by eapply demo_candidates_timestamped. }
  split; [exact Hties|].
  exact (rescale_returns Demo.snapshot [Demo.linux; Demo.osx] Hties).
Defined.
End more_examples.
